(** * Dart Analysis Panel: the analysis-output normalisation pipeline

    A shallow embedding of [src/dartAnalysisPanel.ts]: the severity mapper,
    the path handling of [_parseIssue], the JSON, text and diagnostics
    decoders, the fallback sequence of [_runDartAnalyze] and
    [_runFlutterAnalyze], the re-entrancy guard of [refresh], the
    grouping and counting done at the head of [_getHtmlForWebview], the
    handler of the webview's [openFile] message and [_escapeHtml].

    What the program takes from its platform is modelled as follows.
    - JavaScript strings are sequences of UTF-16 code units: lists of [N].
    - JavaScript numbers are doubles.  The integer-valued ones are
      modelled by [Z], which is where line and column numbers live, and
      a [number] is one of them or [Infinity]; [parseInt] rounds what it
      reads to the nearest double, as the platform does.
    - A value of type [any] is a [JsVal]; reading a property of [null] or
      [undefined], or calling a method the receiver does not have, throws
      a [TypeError].
    - File paths follow the POSIX flavour of Node's [path] module, and the
      working directory of the process is a parameter, [cwd].
    - [execAsync], [JSON.parse], the diagnostics of the editor and
      [localeCompare] are parameters of the functions that use them. *)

From Stdlib Require Import List ZArith NArith Bool Ascii String Lia.
From Stdlib Require Import Permutation Sorted.
Import ListNotations.

Local Open Scope Z_scope.

(** ** JavaScript numbers *)

Module JsNumber.

(** The Number values this program meets: the integer-valued ones and
    [Infinity]. *)
Inductive number :=
| Finite (z : Z)
| Infinity.

Definition isZero (n : number) : bool :=
  match n with
  | Finite z => z =? 0
  | Infinity => false
  end.

(** The Number value for a non-negative integer [n]: [n] itself below
    2^53; from there on [n] rounded to 53 significant bits, to the nearer
    of its two neighbours and, half way between them, to the one whose
    significand is even; [Infinity] when that is 2^1024 or more.  The
    neighbours are 2^[e] apart, [q] is the significand of the lower one
    and [r] what [n] has beyond it. *)
Definition ofInteger (n : Z) : number :=
  if n <? 2 ^ 53 then Finite n
  else
    let e := Z.log2 n - 52 in
    let q := Z.shiftr n e in
    let r := Z.land n (Z.ones e) in
    let half := Z.shiftl 1 (e - 1) in
    let q' := if (half <? r) || ((r =? half) && Z.odd q) then q + 1 else q in
    if Z.shiftl q' e <? 2 ^ 1024 then Finite (Z.shiftl q' e) else Infinity.

End JsNumber.

Import JsNumber.

(** An integer where a number is expected is that number. *)
Coercion Finite : Z >-> number.

(** ** JavaScript strings *)

Module JsString.

Definition jsstring := list N.

(** An ASCII literal as a JavaScript string. *)
Definition js (s : string) : jsstring :=
  map N_of_ascii (list_ascii_of_string s).

Fixpoint eqb (a b : jsstring) : bool :=
  match a, b with
  | [], [] => true
  | x :: a', y :: b' => N.eqb x y && eqb a' b'
  | _, _ => false
  end.

(** [s.startsWith(p)] *)
Fixpoint startsWith (s p : jsstring) : bool :=
  match p, s with
  | [], _ => true
  | y :: p', x :: s' => N.eqb x y && startsWith s' p'
  | _ :: _, [] => false
  end.

(** [s.endsWith(p)] *)
Definition endsWith (s p : jsstring) : bool :=
  startsWith (rev s) (rev p).

(** ECMAScript WhiteSpace and LineTerminator code units: the set matched
    by the regular expression class [\s] and stripped by [trim]. *)
Definition isWhiteSpace (c : N) : bool :=
  ((9 <=? c) && (c <=? 13) || (c =? 32) || (c =? 160) || (c =? 5760)
   || (8192 <=? c) && (c <=? 8202) || (c =? 8232) || (c =? 8233)
   || (c =? 8239) || (c =? 8287) || (c =? 12288) || (c =? 65279))%N.

(** The code units that [.] does not match (no [s] flag). *)
Definition isLineTerminator (c : N) : bool :=
  ((c =? 10) || (c =? 13) || (c =? 8232) || (c =? 8233))%N.

Definition isDigit (c : N) : bool := ((48 <=? c) && (c <=? 57))%N.

Fixpoint trimStart (s : jsstring) : jsstring :=
  match s with
  | c :: s' => if isWhiteSpace c then trimStart s' else s
  | [] => []
  end.

Definition trimEnd (s : jsstring) : jsstring := rev (trimStart (rev s)).

(** [s.trim()] *)
Definition trim (s : jsstring) : jsstring := trimEnd (trimStart s).

(** [s.split(sep)] for a one-unit separator: never the empty list. *)
Fixpoint split (sep : N) (s : jsstring) : list jsstring :=
  match s with
  | [] => [[]]
  | c :: s' =>
      if N.eqb c sep then [] :: split sep s'
      else match split sep s' with
           | w :: ws => (c :: w) :: ws
           | [] => [[c]]
           end
  end.

(** [s.toLowerCase()] on the code units A-Z.  Other code units are left as
    they are; the Unicode lower-casing of a code unit outside A-Z never
    yields one of the letters of the labels this program compares with
    (its only ASCII images are k, for U+212A, and i followed by U+0307,
    for U+0130), so every comparison of a lower-cased string with one of
    those labels is decided as JavaScript decides it. *)
Definition lowerUnit (c : N) : N :=
  if ((65 <=? c) && (c <=? 90))%N then (c + 32)%N else c.

Definition toLowerCase (s : jsstring) : jsstring := map lowerUnit s.

(** [parseInt(s, 10)] on a string of decimal digits, which is what the
    captures of [\d+] are: the integer the digits denote, [mathInt] in
    ECMAScript's words, as a Number value.  ECMAScript lets an engine
    disregard the digits after the twentieth; the engine of Node reads
    them all, and so does this definition. *)
Definition digitValue (c : N) : Z := Z.of_N c - 48.

Definition mathInt (s : jsstring) : Z :=
  fold_left (fun acc c => 10 * acc + digitValue c) s 0.

Definition parseInt (s : jsstring) : number := ofInteger (mathInt s).

(** [String(n)] for an integer-valued number. *)
Fixpoint digitsOfPos (fuel : nat) (n : N) (acc : jsstring) : jsstring :=
  match fuel with
  | O => acc
  | S fuel' =>
      let acc' := (48 + n mod 10)%N :: acc in
      if (n <? 10)%N then acc' else digitsOfPos fuel' (n / 10)%N acc'
  end.

Definition stringOfNumber (z : Z) : jsstring :=
  let n := Z.to_N (Z.abs z) in
  let ds := digitsOfPos (S (N.to_nat (N.log2 n))) n [] in
  if z <? 0 then 45%N :: ds else ds.

End JsString.

Import JsString.

(** The separator of the text report, U+2022. *)
Definition bullet : N := 8226.

(** ** Severities and the severity mapper *)

Inductive Severity := SevError | SevWarning | SevInfo | SevHint.

Definition Severity_eqb (a b : Severity) : bool :=
  match a, b with
  | SevError, SevError | SevWarning, SevWarning
  | SevInfo, SevInfo | SevHint, SevHint => true
  | _, _ => false
  end.

(** [_mapSeverity(severity: string)] *)
Definition _mapSeverity (severity : jsstring) : Severity :=
  let lower := toLowerCase severity in
  if eqb lower (js "error") || eqb lower (js "fatal") then SevError
  else if eqb lower (js "warning") || eqb lower (js "warn") then SevWarning
  else if eqb lower (js "info") || eqb lower (js "information") then SevInfo
  else SevHint.

(** [export interface AnalysisIssue].  The record is parameterised by the
    types of its string and number fields: the interface declares them
    [string] and [number], but TypeScript's types are erased at run time and
    [_parseIssue] builds the object from a value of type [any]. *)
Record Issue (Str Num : Type) := mkIssue {
  severity : Severity;
  code : Str;
  message : Str;
  file : jsstring;
  line : Num;
  column : Num
}.

Arguments mkIssue {Str Num}.
Arguments severity {Str Num}.
Arguments code {Str Num}.
Arguments message {Str Num}.
Arguments file {Str Num}.
Arguments line {Str Num}.
Arguments column {Str Num}.

(** The interface as declared, its numbers integers. *)
Definition AnalysisIssue := Issue jsstring Z.

(** An issue of the text decoder: its numbers are what [parseInt]
    answers. *)
Definition TextIssue := Issue jsstring number.

(** ** Node's [path] module, POSIX flavour

    [path.relative(from, to)] resolves both paths against the working
    directory of the process, normalises them, drops their common leading
    segments, and answers one [..] for each segment left of [from] followed
    by the segments left of [to]. *)

Module Path.

Definition sep : N := 47.

Definition isAbsolute (p : jsstring) : bool :=
  match p with
  | c :: _ => N.eqb c sep
  | [] => false
  end.

Definition segments (p : jsstring) : list jsstring :=
  filter (fun s => negb (eqb s [])) (split sep p).

(** Normalisation of the segments of an absolute path: [.] is dropped and
    [..] removes the segment before it (nothing at the root). *)
Fixpoint normalizeOnto (stack segs : list jsstring) : list jsstring :=
  match segs with
  | [] => stack
  | s :: rest =>
      if eqb s (js ".") then normalizeOnto stack rest
      else if eqb s (js "..") then normalizeOnto (tl stack) rest
      else normalizeOnto (s :: stack) rest
  end.

Definition normalizeSegments (segs : list jsstring) : list jsstring :=
  rev (normalizeOnto [] segs).

(** [path.resolve(p)], as the list of segments of the absolute result. *)
Definition resolve (cwd p : jsstring) : list jsstring :=
  normalizeSegments
    (if isAbsolute p then segments p else segments cwd ++ segments p).

Fixpoint dropCommon (a b : list jsstring) : list jsstring * list jsstring :=
  match a, b with
  | x :: a', y :: b' => if eqb x y then dropCommon a' b' else (a, b)
  | _, _ => (a, b)
  end.

Definition join (segs : list jsstring) : jsstring :=
  match segs with
  | [] => []
  | s :: rest => s ++ flat_map (fun t => sep :: t) rest
  end.

(** [path.relative(from, to)] in a process whose working directory is
    [cwd]. *)
Definition relative (cwd from to : jsstring) : jsstring :=
  if eqb from to then []
  else
    let (f, t) := dropCommon (resolve cwd from) (resolve cwd to) in
    join (map (fun _ => js "..") f ++ t).

End Path.

(** ** JavaScript values, as [JSON.parse] builds them

    An object is the list of its own properties, each key once
    ([JSON.parse] keeps the last of two equal keys).  [JUndefined] is what
    reading an absent property answers; no parsed payload contains it. *)

#[warnings="-register-all"]
Inductive JsVal :=
| JUndefined
| JNull
| JBool (b : bool)
| JNum (n : number)
| JStr (s : jsstring)
| JArr (elements : list JsVal)
| JObj (fields : list (jsstring * JsVal)).

(** Synchronous code either returns or throws; every exception the decoders
    can raise is a [TypeError]. *)
Inductive result (A : Type) :=
| Ok (a : A)
| TypeError.

Arguments Ok {A}.
Arguments TypeError {A}.

Definition bind {A B} (r : result A) (k : A -> result B) : result B :=
  match r with
  | Ok a => k a
  | TypeError => TypeError
  end.

Notation "x <- r ;; k" := (bind r (fun x => k))
  (at level 61, r at next level, right associativity).

Fixpoint mapM {A B} (f : A -> result B) (l : list A) : result (list B) :=
  match l with
  | [] => Ok []
  | a :: l' => b <- f a ;; bs <- mapM f l' ;; Ok (b :: bs)
  end.

Module Js.

(** ToBoolean *)
Definition truthy (v : JsVal) : bool :=
  match v with
  | JUndefined | JNull => false
  | JBool b => b
  | JNum n => negb (isZero n)
  | JStr s => negb (JsString.eqb s [])
  | JArr _ | JObj _ => true
  end.

(** [a || b] *)
Definition or (a b : JsVal) : JsVal := if truthy a then a else b.

Fixpoint lookup (name : jsstring) (fields : list (jsstring * JsVal)) : JsVal :=
  match fields with
  | [] => JUndefined
  | (k, v) :: rest => if JsString.eqb k name then v else lookup name rest
  end.

(** [v.name] for the property names this program reads: none of them is
    defined on the prototype of a boolean, number, string, array or plain
    object, so only own properties of objects answer. *)
Definition get (v : JsVal) (name : string) : result JsVal :=
  match v with
  | JUndefined | JNull => TypeError
  | JObj fields => Ok (lookup (js name) fields)
  | _ => Ok JUndefined
  end.

(** [v?.name] *)
Definition getOpt (v : JsVal) (name : string) : JsVal :=
  match v with
  | JObj fields => lookup (js name) fields
  | _ => JUndefined
  end.

(** The receiver of a string method: anything but a string has no such
    method, and calling it throws. *)
Definition asString (v : JsVal) : result jsstring :=
  match v with
  | JStr s => Ok s
  | _ => TypeError
  end.

Definition isArray (v : JsVal) : bool :=
  match v with
  | JArr _ => true
  | _ => false
  end.

(** The receiver of [forEach]. *)
Definition asArray (v : JsVal) : result (list JsVal) :=
  match v with
  | JArr l => Ok l
  | _ => TypeError
  end.

End Js.

(** ** The issue-start pattern

    [/^(error|warning|info|hint)\s+B\s+(.+?)\s+B\s+(.+?):(\d+):(\d+)/],
    where B is the bullet U+2022,
    matched as a backtracking matcher does: each piece hands the rest of the
    input to its continuation and tries its next choice when the continuation
    fails; a greedy [+] tries its longest match first, a lazy [+?] its
    shortest. *)

Module Regex.

Record Groups := mkGroups {
  g1 : jsstring; g2 : jsstring; g3 : jsstring; g4 : jsstring; g5 : jsstring
}.

Section Matcher.

Variable R : Type.

Fixpoint lit (p s : jsstring) (k : jsstring -> option R) : option R :=
  match p with
  | [] => k s
  | c :: p' =>
      match s with
      | x :: s' => if N.eqb x c then lit p' s' k else None
      | [] => None
      end
  end.

Fixpoint alt (ps : list jsstring) (s : jsstring)
    (k : jsstring -> jsstring -> option R) : option R :=
  match ps with
  | [] => None
  | p :: rest =>
      match lit p s (k p) with
      | Some r => Some r
      | None => alt rest s k
      end
  end.

Fixpoint greedyStar (cls : N -> bool) (matched s : jsstring)
    (k : jsstring -> jsstring -> option R) : option R :=
  match s with
  | c :: s' =>
      if cls c then
        match greedyStar cls (matched ++ [c]) s' k with
        | Some r => Some r
        | None => k matched s
        end
      else k matched s
  | [] => k matched s
  end.

Definition greedyPlus (cls : N -> bool) (s : jsstring)
    (k : jsstring -> jsstring -> option R) : option R :=
  match s with
  | c :: s' => if cls c then greedyStar cls [c] s' k else None
  | [] => None
  end.

Fixpoint lazyStar (cls : N -> bool) (matched s : jsstring)
    (k : jsstring -> jsstring -> option R) : option R :=
  match k matched s with
  | Some r => Some r
  | None =>
      match s with
      | c :: s' =>
          if cls c then lazyStar cls (matched ++ [c]) s' k else None
      | [] => None
      end
  end.

Definition lazyPlus (cls : N -> bool) (s : jsstring)
    (k : jsstring -> jsstring -> option R) : option R :=
  match s with
  | c :: s' => if cls c then lazyStar cls [c] s' k else None
  | [] => None
  end.

End Matcher.

Arguments lit {R}.
Arguments alt {R}.
Arguments greedyPlus {R}.
Arguments lazyPlus {R}.

Definition dot (c : N) : bool := negb (isLineTerminator c).

(** [line.match(...)]: the pattern is anchored at the start of the line
    and free at its end. *)
Definition issueStart (ln : jsstring) : option Groups :=
  alt [js "error"; js "warning"; js "info"; js "hint"] ln (fun m1 r =>
  greedyPlus isWhiteSpace r (fun _ r =>
  lit [bullet] r (fun r =>
  greedyPlus isWhiteSpace r (fun _ r =>
  lazyPlus dot r (fun m2 r =>
  greedyPlus isWhiteSpace r (fun _ r =>
  lit [bullet] r (fun r =>
  greedyPlus isWhiteSpace r (fun _ r =>
  lazyPlus dot r (fun m3 r =>
  lit (js ":") r (fun r =>
  greedyPlus isDigit r (fun m4 r =>
  lit (js ":") r (fun r =>
  greedyPlus isDigit r (fun m5 _ =>
  Some (mkGroups m1 m2 m3 m4 m5)))))))))))))).

End Regex.

(** ** What the host editor hands over *)

Module Vscode.

Record Uri := mkUri { scheme : jsstring; fsPath : jsstring }.

(** A [Position]: line and character are zero-based and never negative. *)
Record Position := mkPosition { line : N; character : N }.

Inductive CodeValue := ValString (s : jsstring) | ValNumber (z : Z).

(** [Diagnostic.code]: absent, a string, a number, or an object carrying
    a [value]. *)
Inductive DiagnosticCode :=
| CodeNone
| CodeString (s : jsstring)
| CodeNumber (z : Z)
| CodeObject (value : CodeValue).

(** A [Diagnostic]; [start] is [range.start]. *)
Record Diagnostic := mkDiagnostic {
  severity : Z;
  code : DiagnosticCode;
  message : jsstring;
  start : Position
}.

End Vscode.

(** ** The decoders *)

Section Decoders.

(** [process.cwd()], against which [path.relative] resolves relative
    paths. *)
Variable cwd : jsstring.

(** *** JSON *)

(** [_parseIssue], lines 257 to 259: the path normaliser. *)
Definition relativeFile (workspaceRoot file : jsstring) : jsstring :=
  if startsWith file workspaceRoot
  then Path.relative cwd workspaceRoot file
  else file.

(** [_parseIssue(issue: any, workspaceRoot)] *)
Definition _parseIssue (issue : JsVal) (workspaceRoot : jsstring)
  : result (Issue JsVal JsVal) :=
  sev <- Js.get issue "severity" ;;
  lvl <- Js.get issue "level" ;;
  sevStr <- Js.asString (Js.or sev lvl) ;;
  let severity := _mapSeverity sevStr in
  location <- Js.get issue "location" ;;
  ifile <- Js.get issue "file" ;;
  file <- Js.asString
            (Js.or (Js.or (Js.getOpt location "file") ifile) (JStr [])) ;;
  let relativeFile := relativeFile workspaceRoot file in
  icode <- Js.get issue "code" ;;
  errorCode <- Js.get issue "errorCode" ;;
  imessage <- Js.get issue "message" ;;
  problemMessage <- Js.get issue "problemMessage" ;;
  iline <- Js.get issue "line" ;;
  icolumn <- Js.get issue "column" ;;
  Ok {| severity := severity;
        code := Js.or (Js.or icode errorCode) (JStr (js "unknown"));
        message := Js.or (Js.or imessage problemMessage) (JStr []);
        file := relativeFile;
        line := Js.or (Js.or (Js.getOpt location "startLine") iline)
                      (JNum 1);
        column := Js.or (Js.or (Js.getOpt location "startColumn") icolumn)
                        (JNum 1) |}.

(** [_parseJsonOutput(jsonOutput: any, workspaceRoot)] *)
Definition _parseJsonOutput (jsonOutput : JsVal) (workspaceRoot : jsstring)
  : result (list (Issue JsVal JsVal)) :=
  sev <- Js.get jsonOutput "severity" ;;
  cod <- Js.get jsonOutput "code" ;;
  if Js.truthy sev && Js.truthy cod then
    i <- _parseIssue jsonOutput workspaceRoot ;; Ok [i]
  else if Js.isArray jsonOutput then
    l <- Js.asArray jsonOutput ;;
    mapM (fun issue => _parseIssue issue workspaceRoot) l
  else
    diagnostics <- Js.get jsonOutput "diagnostics" ;;
    if Js.truthy diagnostics then
      l <- Js.asArray diagnostics ;;
      mapM (fun issue => _parseIssue issue workspaceRoot) l
    else Ok [].

(** *** Text report *)

(** [_parseTextOutput], lines 298 to 330: the loop over the lines of the
    report, once [execAsync] has delivered [stdout]. *)
Definition startIssue (workspaceRoot : jsstring) (m : Regex.Groups)
  : TextIssue :=
  {| severity := _mapSeverity (Regex.g1 m);
     message := trim (Regex.g2 m);
     file := Path.relative cwd workspaceRoot (Regex.g3 m);
     line := parseInt (Regex.g4 m);
     column := parseInt (Regex.g5 m);
     code := js "analyzer" |}.

Definition appendMessage (i : TextIssue) (text : jsstring)
  : TextIssue :=
  {| severity := severity i;
     code := code i;
     message := message i ++ js " " ++ text;
     file := file i;
     line := line i;
     column := column i |}.

(** One iteration: [issues] and [currentIssue] before and after. *)
Definition textLine (workspaceRoot : jsstring)
    (st : list TextIssue * option TextIssue) (ln : jsstring)
  : list TextIssue * option TextIssue :=
  let (issues, currentIssue) := st in
  match Regex.issueStart ln with
  | Some errorMatch =>
      (match currentIssue with
       | Some c => issues ++ [c]
       | None => issues
       end,
       Some (startIssue workspaceRoot errorMatch))
  | None =>
      match currentIssue with
      | Some c =>
          if negb (eqb (trim ln) [])
          then (issues, Some (appendMessage c (trim ln)))
          else st
      | None => st
      end
  end.

Definition parseTextLines (workspaceRoot stdout : jsstring)
  : list TextIssue :=
  let (issues, currentIssue) :=
    fold_left (textLine workspaceRoot) (split 10 stdout) ([], None) in
  match currentIssue with
  | Some c => issues ++ [c]
  | None => issues
  end.

(** *** Diagnostics snapshot *)

(** [_mapDiagnosticSeverity]; [vscode.DiagnosticSeverity] numbers Error,
    Warning, Information and Hint from 0 to 3. *)
Definition _mapDiagnosticSeverity (severity : Z) : Severity :=
  if severity =? 0 then SevError
  else if severity =? 1 then SevWarning
  else if severity =? 2 then SevInfo
  else if severity =? 3 then SevHint
  else SevInfo.

Definition diagnosticCode (c : Vscode.DiagnosticCode) : jsstring :=
  match c with
  | Vscode.CodeNone => js "unknown"
  | Vscode.CodeString s => s
  | Vscode.CodeNumber z => stringOfNumber z
  | Vscode.CodeObject (Vscode.ValString s) => s
  | Vscode.CodeObject (Vscode.ValNumber z) => stringOfNumber z
  end.

(** [_getDiagnosticsFromEditor], over what [vscode.languages
    .getDiagnostics()] and [vscode.workspace.workspaceFolders] answer. *)
Definition _getDiagnosticsFromEditor
    (diagnostics : list (Vscode.Uri * list Vscode.Diagnostic))
    (workspaceFolders : option (list jsstring))
  : list AnalysisIssue :=
  flat_map
    (fun entry : Vscode.Uri * list Vscode.Diagnostic =>
       let (uri, diags) := entry in
       if negb (eqb (Vscode.scheme uri) (js "file"))
          || negb (endsWith (Vscode.fsPath uri) (js ".dart"))
       then []
       else
         let workspaceRoot :=
           match workspaceFolders with
           | Some (folder :: _) => folder
           | _ => []
           end in
         let relativeFile :=
           if negb (eqb workspaceRoot [])
           then Path.relative cwd workspaceRoot (Vscode.fsPath uri)
           else Vscode.fsPath uri in
         map (fun diagnostic =>
                {| severity :=
                     _mapDiagnosticSeverity (Vscode.severity diagnostic);
                   code := diagnosticCode (Vscode.code diagnostic);
                   message := Vscode.message diagnostic;
                   file := relativeFile;
                   line := Z.of_N (Vscode.line (Vscode.start diagnostic)) + 1;
                   column :=
                     Z.of_N (Vscode.character (Vscode.start diagnostic)) + 1
                |})
             diags)
    diagnostics.

End Decoders.

(** ** The fallback sequence *)

(** The object a decoder returns, as the orchestrator passes it on. *)
Definition RuntimeIssue := Issue JsVal JsVal.

(** The number a numeric field holds. *)
Class Numeric (Num : Type) := numberOf : Num -> number.

#[export] Instance Numeric_integer : Numeric Z := Finite.

#[export] Instance Numeric_number : Numeric number := fun n => n.

Definition toRuntime {Num : Type} {numeric : Numeric Num}
    (i : Issue jsstring Num) : RuntimeIssue :=
  {| severity := severity i;
     code := JStr (code i);
     message := JStr (message i);
     file := file i;
     line := JNum (numberOf (line i));
     column := JNum (numberOf (column i)) |}.

Inductive Analyzer := Dart | Flutter.

(** How a promise of [execAsync] settles. *)
Inductive ExecOutcome :=
| Resolved (stdout stderr : jsstring)
| Rejected.

(** What a run did, in order: the commands it handed to [execAsync], the
    calls of [JSON.parse] and the decoders it entered. *)
Inductive Step :=
| Exec (command : jsstring)
| JsonParse
| DecodeJson
| DecodeText
| DecodeSnapshot.

Section Orchestrator.

Variable cwd : jsstring.

(** [execAsync(command, { cwd })] *)
Variable exec : jsstring -> jsstring -> ExecOutcome.

(** [JSON.parse]; [None] when it throws. *)
Variable JSON_parse : jsstring -> option JsVal.

Variable diagnostics : list (Vscode.Uri * list Vscode.Diagnostic).
Variable workspaceFolders : option (list jsstring).

Definition textCommand (analyzer : Analyzer) : jsstring :=
  match analyzer with
  | Flutter => js "flutter analyze"
  | Dart => js "dart analyze"
  end.

Definition jsonCommand (analyzer : Analyzer) : jsstring :=
  match analyzer with
  | Flutter => js "flutter analyze --format=json"
  | Dart => js "dart analyze --format=json"
  end.

Definition snapshot : list Step * list RuntimeIssue :=
  ([DecodeSnapshot],
   map toRuntime (_getDiagnosticsFromEditor cwd diagnostics workspaceFolders)).

Definition after (done : list Step) (r : list Step * list RuntimeIssue)
  : list Step * list RuntimeIssue :=
  (done ++ fst r, snd r).

(** [_parseTextOutput(workspaceRoot, analyzer)] *)
Definition _parseTextOutput (workspaceRoot : jsstring) (analyzer : Analyzer)
  : list Step * list RuntimeIssue :=
  let command := textCommand analyzer in
  match exec command workspaceRoot with
  | Resolved stdout _ =>
      ([Exec command; DecodeText],
       map toRuntime (parseTextLines cwd workspaceRoot stdout))
  | Rejected => after [Exec command] snapshot
  end.

(** [_runDartAnalyze] and [_runFlutterAnalyze] differ in the two command
    strings only. *)
Definition runAnalyze (analyzer : Analyzer) (workspaceRoot : jsstring)
  : list Step * list RuntimeIssue :=
  let command := jsonCommand analyzer in
  match exec command workspaceRoot with
  | Rejected => after [Exec command] snapshot
  | Resolved stdout stderr =>
      if negb (eqb stderr []) && eqb stdout [] then
        after [Exec command] (_parseTextOutput workspaceRoot analyzer)
      else
        match JSON_parse stdout with
        | None =>
            after [Exec command; JsonParse]
                  (_parseTextOutput workspaceRoot analyzer)
        | Some jsonOutput =>
            match _parseJsonOutput cwd jsonOutput workspaceRoot with
            | Ok issues => ([Exec command; JsonParse; DecodeJson], issues)
            | TypeError =>
                after [Exec command; JsonParse; DecodeJson]
                      (_parseTextOutput workspaceRoot analyzer)
            end
        end
  end.

Definition _runDartAnalyze := runAnalyze Dart.
Definition _runFlutterAnalyze := runAnalyze Flutter.

End Orchestrator.

(** ** The panel and its re-entrancy guard

    JavaScript runs each piece of [refresh] between two [await]s to
    completion, so a panel moves in atomic steps: a call of [refresh] up to
    its first [await], and the settling of a tool invocation a run is
    waiting for, up to the next [await] or the end of the run. *)

Module Panel.

(** Where a run that is in flight waits. *)
Inductive Waiting := AwaitJsonExec | AwaitTextExec.

Record State := mkState {
  _isAnalyzing : bool;
  _analysisResults : list RuntimeIssue;
  title : jsstring;
  (** the runs that passed the guard and have not reached [finally] *)
  inFlight : list Waiting;
  (** the tool invocations started so far *)
  invocations : nat
}.

Definition initial : State :=
  {| _isAnalyzing := false; _analysisResults := []; title := [];
     inFlight := []; invocations := 0 |}.

(** How the invocation a run waits for settles, seen from [refresh]. *)
Inductive Settled :=
| StartsTextExec   (** the JSON attempt is given up for the text mode *)
| Returns (analysisResults : list RuntimeIssue)
| Throws (errorMessage : jsstring).

Inductive Event :=
| Refresh (analyzer : Analyzer) (workspaceFolders : option (list jsstring))
| Settle (run : nat) (how : Settled).

(** [_updateStatus(message)] *)
Definition status (message : jsstring) : jsstring :=
  js "Dart Analysis - " ++ message.

Fixpoint removeNth {A} (n : nat) (l : list A) : list A :=
  match n, l with
  | _, [] => []
  | O, _ :: l' => l'
  | S n', a :: l' => a :: removeNth n' l'
  end.

Fixpoint setNth {A} (n : nat) (a : A) (l : list A) : list A :=
  match n, l with
  | _, [] => []
  | O, _ :: l' => a :: l'
  | S n', b :: l' => b :: setNth n' a l'
  end.

(** [refresh(analyzer)], up to its first [await]. *)
Definition refresh (s : State) (analyzer : Analyzer)
    (workspaceFolders : option (list jsstring)) : State :=
  if _isAnalyzing s then s
  else
    match workspaceFolders with
    | Some (_ :: _) =>
        {| _isAnalyzing := true;
           _analysisResults := _analysisResults s;
           title :=
             status (match analyzer with
                     | Flutter => js "Flutter Analyzing..."
                     | Dart => js "Dart Analyzing..."
                     end);
           inFlight := inFlight s ++ [AwaitJsonExec];
           invocations := S (invocations s) |}
    | _ =>
        {| _isAnalyzing := false;
           _analysisResults := _analysisResults s;
           title := status (js "No workspace folder found");
           inFlight := inFlight s;
           invocations := invocations s |}
    end.

Definition found (n : nat) : jsstring :=
  js "Found " ++ stringOfNumber (Z.of_nat n) ++ js " issue"
     ++ (if Nat.eqb n 1 then [] else js "s").

(** The rest of [refresh] for the run at index [run], once the invocation
    it waits for has settled. *)
Definition settle (s : State) (run : nat) (how : Settled) : State :=
  match nth_error (inFlight s) run with
  | None => s
  | Some w =>
      match how, w with
      | StartsTextExec, AwaitJsonExec =>
          {| _isAnalyzing := _isAnalyzing s;
             _analysisResults := _analysisResults s;
             title := title s;
             inFlight := setNth run AwaitTextExec (inFlight s);
             invocations := S (invocations s) |}
      | StartsTextExec, AwaitTextExec => s
      | Returns analysisResults, _ =>
          {| _isAnalyzing := false;
             _analysisResults := analysisResults;
             title := status (found (List.length analysisResults));
             inFlight := removeNth run (inFlight s);
             invocations := invocations s |}
      | Throws errorMessage, _ =>
          {| _isAnalyzing := false;
             _analysisResults := _analysisResults s;
             title := status (js "Error: " ++ errorMessage);
             inFlight := removeNth run (inFlight s);
             invocations := invocations s |}
      end
  end.

Definition step (s : State) (e : Event) : State :=
  match e with
  | Refresh analyzer workspaceFolders => refresh s analyzer workspaceFolders
  | Settle run how => settle s run how
  end.

Definition run (events : list Event) : State := fold_left step events initial.

End Panel.

(** ** Grouping and counting: the head of [_getHtmlForWebview] *)

Module JsArray.

Section Sort.

Context {A : Type}.

(** [compare(a, b)]: negative when [a] goes first, positive when [b]
    does. *)
Variable compare : A -> A -> Z.

Fixpoint insert (x : A) (sorted : list A) : list A :=
  match sorted with
  | [] => [x]
  | y :: rest =>
      if compare x y <=? 0 then x :: sorted else y :: insert x rest
  end.

(** [array.sort(compare)].  The sort is stable, and for a consistent
    comparator its result is the one list that is ordered by [compare]
    and keeps elements that compare equal in their original order;
    insertion from the right computes that list. *)
Definition sort (array : list A) : list A := fold_right insert [] array.

End Sort.

End JsArray.

(** A [Map] with string keys: the entries in the order the keys were first
    set. *)
Module JsMap.

Section Map.

Context {V : Type}.

Definition t := list (jsstring * V).

Fixpoint get (m : t) (key : jsstring) : option V :=
  match m with
  | [] => None
  | (k, v) :: rest => if eqb k key then Some v else get rest key
  end.

Fixpoint set (m : t) (key : jsstring) (value : V) : t :=
  match m with
  | [] => [(key, value)]
  | (k, v) :: rest =>
      if eqb k key then (k, value) :: rest
      else (k, v) :: set rest key value
  end.

End Map.

Arguments t : clear implicits.

End JsMap.

Section Webview.

(** [a.localeCompare(b)]: the collation of the host's locale. *)
Variable localeCompare : jsstring -> jsstring -> Z.

Definition hasSeverity (s : Severity) (i : AnalysisIssue) : bool :=
  Severity_eqb (severity i) s.

Definition errors (issues : list AnalysisIssue) :=
  filter (hasSeverity SevError) issues.
Definition warnings (issues : list AnalysisIssue) :=
  filter (hasSeverity SevWarning) issues.
Definition infos (issues : list AnalysisIssue) :=
  filter (hasSeverity SevInfo) issues.
Definition hints (issues : list AnalysisIssue) :=
  filter (hasSeverity SevHint) issues.

(** The three numbers of the summary bar. *)
Definition summary (issues : list AnalysisIssue) : nat * nat * nat :=
  (List.length (errors issues),
   List.length (warnings issues),
   (List.length (infos issues) + List.length (hints issues))%nat).

Definition addIssue (m : JsMap.t (list AnalysisIssue)) (issue : AnalysisIssue)
  : JsMap.t (list AnalysisIssue) :=
  let fileIssues :=
    match JsMap.get m (file issue) with
    | Some l => l
    | None => []
    end in
  JsMap.set m (file issue) (fileIssues ++ [issue]).

Definition issuesByFile (issues : list AnalysisIssue)
  : JsMap.t (list AnalysisIssue) :=
  fold_left addIssue issues [].

(** The entries of the map, each with its issues sorted by line. *)
Definition sortedEntries (issues : list AnalysisIssue)
  : list (jsstring * list AnalysisIssue) :=
  map (fun entry : jsstring * list AnalysisIssue =>
         let (file, fileIssues) := entry in
         (file, JsArray.sort (fun a b => line a - line b) fileIssues))
      (issuesByFile issues).

(** A group: the file and its issues. *)
Definition fileGroups (issues : list AnalysisIssue)
  : list (jsstring * list AnalysisIssue) :=
  JsArray.sort (fun a b => localeCompare (fst a) (fst b))
               (sortedEntries issues).

End Webview.

(** ** More of Node's [path] module: [normalize], [join] *)

Module PathJoin.

(** [normalizeString(path, true)], on the segments of a relative path: a
    [..] removes the segment before it, and stays when there is none or
    when that segment is itself a [..]. *)
Fixpoint normalizeAbove (stack segs : list jsstring) : list jsstring :=
  match segs with
  | [] => stack
  | s :: rest =>
      if eqb s (js ".") then normalizeAbove stack rest
      else if eqb s (js "..") then
        match stack with
        | top :: below =>
            if eqb top (js "..") then normalizeAbove (s :: stack) rest
            else normalizeAbove below rest
        | [] => normalizeAbove [s] rest
        end
      else normalizeAbove (s :: stack) rest
  end.

Definition endsWithSep (p : jsstring) : bool :=
  match rev p with
  | c :: _ => N.eqb c Path.sep
  | [] => false
  end.

(** [path.normalize(p)] *)
Definition normalize (p : jsstring) : jsstring :=
  match p with
  | [] => js "."
  | _ :: _ =>
      let isAbsolute := Path.isAbsolute p in
      let trailingSeparator := endsWithSep p in
      let body :=
        Path.join (if isAbsolute then Path.normalizeSegments (Path.segments p)
                   else rev (normalizeAbove [] (Path.segments p))) in
      match body with
      | [] =>
          if isAbsolute then js "/"
          else if trailingSeparator then js "./" else js "."
      | _ :: _ =>
          let body := if trailingSeparator then body ++ [Path.sep] else body in
          if isAbsolute then Path.sep :: body else body
      end
  end.

(** [path.join(a, b)] *)
Definition join (a b : jsstring) : jsstring :=
  match a, b with
  | [], [] => js "."
  | [], _ :: _ => normalize b
  | _ :: _, [] => normalize a
  | _ :: _, _ :: _ => normalize (a ++ Path.sep :: b)
  end.

End PathJoin.

(** ** The [openFile] message of the webview *)

(** The message the handler receives: the three arguments of the
    [openFile(file, line, column)] of the webview's script, with an
    integer line and column. *)
Record OpenFileMessage := mkOpenFile {
  msgFile : jsstring;
  msgLine : Z;
  msgColumn : Z
}.

(** What the handler does with it, when the document it asks the editor
    for opens. *)
Inductive OpenOutcome :=
| Ignored
| Shown (fullPath : jsstring) (line character : Z)
  (** the document is shown, then [new vscode.Position] rejects a negative
      line or character *)
| ShownThenThrown (fullPath : jsstring).

(** The constructor's message handler, case ['openFile'] (lines 89 to
    112). *)
Definition openFile (workspaceFolders : option (list jsstring))
    (message : OpenFileMessage) : OpenOutcome :=
  if negb (eqb (msgFile message) []) && negb (msgLine message =? 0) then
    match workspaceFolders with
    | Some (workspaceRoot :: _) =>
        let fullPath :=
          if Path.isAbsolute (msgFile message) then msgFile message
          else PathJoin.join workspaceRoot (msgFile message) in
        let line := msgLine message - 1 in
        let character :=
          if msgColumn message - 1 =? 0 then 0 else msgColumn message - 1 in
        if (line <? 0) || (character <? 0) then ShownThenThrown fullPath
        else Shown fullPath line character
    | _ => Ignored
    end
  else Ignored.

(** ** Escaping for the webview *)

(** The replacement [map[m]] of [_escapeHtml]. *)
Definition escapeUnit (c : N) : jsstring :=
  if (c =? 38)%N then js "&amp;"
  else if (c =? 60)%N then js "&lt;"
  else if (c =? 62)%N then js "&gt;"
  else if (c =? 34)%N then js "&quot;"
  else if (c =? 39)%N then js "&#039;"
  else [c].

(** [_escapeHtml(text)]: every ampersand, angle bracket, double quote and
    single quote of [text] is replaced by [map[m]]. *)
Definition _escapeHtml (text : jsstring) : jsstring :=
  flat_map escapeUnit text.

(** * Vocabulary of the properties *)

(** The claim's reading of "case-insensitive": [x] is the letter [y] or its
    capital. *)
Definition sameLetter (x y : N) : Prop :=
  x = y \/ ((65 <= x)%N /\ (x <= 90)%N /\ y = (x + 32)%N).

Definition equalsIgnoringCase (s label : jsstring) : Prop :=
  Forall2 sameLetter s label.

Definition noCapital (label : jsstring) : Prop :=
  Forall (fun y => (y < 65)%N \/ (90 < y)%N) label.

Definition isString (v : JsVal) : bool :=
  match v with
  | JStr _ => true
  | _ => false
  end.

Definition nullish (v : JsVal) : bool :=
  match v with
  | JUndefined | JNull => true
  | _ => false
  end.

(** The elements [_parseIssue] decodes without throwing: values other than
    [null] whose [severity || level] is a string and whose
    [location?.file || file || ''] is a string. *)
Definition issueDecodes (v : JsVal) : bool :=
  negb (nullish v)
  && isString (Js.or (Js.getOpt v "severity") (Js.getOpt v "level"))
  && isString (Js.or (Js.or (Js.getOpt (Js.getOpt v "location") "file")
                            (Js.getOpt v "file"))
                     (JStr [])).

(** A payload that matches none of the three shapes. *)
Definition matchesNoShape (v : JsVal) : bool :=
  negb (Js.truthy (Js.getOpt v "severity") && Js.truthy (Js.getOpt v "code"))
  && negb (Js.isArray v)
  && negb (Js.truthy (Js.getOpt v "diagnostics")).

(** The payloads [_parseJsonOutput] decodes without throwing. *)
Definition decodable (v : JsVal) : bool :=
  negb (nullish v)
  && (if Js.truthy (Js.getOpt v "severity") && Js.truthy (Js.getOpt v "code")
      then issueDecodes v
      else
        match v with
        | JArr l => forallb issueDecodes l
        | _ =>
            match Js.getOpt v "diagnostics" with
            | JArr l => forallb issueDecodes l
            | d => negb (Js.truthy d)
            end
        end).

(** The payloads of the examples. *)
Definition singleIssuePayload : JsVal :=
  JObj [(js "severity", JStr (js "error"));
        (js "code", JStr (js "E1"));
        (js "message", JStr (js "m"));
        (js "location",
         JObj [(js "file", JStr (js "/root/a.dart"));
               (js "startLine", JNum 3);
               (js "startColumn", JNum 5)])].

Definition unrelatedPayload : JsVal := JObj [(js "unrelatedField", JNum 1)].

(** The report of the text example: three lines. *)
Definition exampleReport : jsstring :=
  js "error " ++ bullet :: js " Unused import " ++ bullet
     :: js " lib/a.dart:10:1" ++ 10%N
     :: js "  this import is unused" ++ 10%N
     :: js "warning " ++ bullet :: js " Missing return " ++ bullet
     :: js " lib/b.dart:20:3".

(** A segment of a path: not empty, without a separator. *)
Definition segment (s : jsstring) : Prop := s <> [] /\ ~ In Path.sep s.

(** A segment that normalisation keeps: neither [.] nor [..]. *)
Definition plain (s : jsstring) : Prop :=
  eqb s (js ".") = false /\ eqb s (js "..") = false.

(** A run of decimal digits, and the number it writes: each digit counts
    its value times the power of ten of its place. *)
Definition digits (s : jsstring) : Prop :=
  s <> [] /\ Forall (fun c => isDigit c = true) s.


(** The elements of a payload the JSON decoder decodes: the payload itself
    when it has the shape of a single issue, else its elements when it is
    an array, else the elements of its [diagnostics] when that is one. *)
Definition decodedElements (payload : JsVal) : list JsVal :=
  if Js.truthy (Js.getOpt payload "severity")
     && Js.truthy (Js.getOpt payload "code")
  then [payload]
  else
    match payload with
    | JArr l => l
    | _ =>
        match Js.getOpt payload "diagnostics" with
        | JArr l => l
        | _ => []
        end
    end.

(** The line and the column an element of a JSON payload supplies. *)
Definition suppliedLine (e : JsVal) : JsVal :=
  Js.or (Js.getOpt (Js.getOpt e "location") "startLine") (Js.getOpt e "line").

Definition suppliedColumn (e : JsVal) : JsVal :=
  Js.or (Js.getOpt (Js.getOpt e "location") "startColumn")
        (Js.getOpt e "column").

(** A report with a zero position, and a payload with a negative line. *)
Definition zeroPositionReport : jsstring :=
  js "error " ++ bullet :: js " m " ++ bullet :: js " a.dart:0:0".


(** A tool whose JSON invocation only writes to its error stream, and whose
    text invocation prints the report of the example. *)
Definition stderrOnlyExec (command workspaceRoot : jsstring) : ExecOutcome :=
  if eqb command (js "flutter analyze --format=json")
  then Resolved [] (js "unknown option")
  else Resolved exampleReport [].

(** The guard's invariant: no run in flight and the flag down, or one run
    in flight and the flag up. *)
Definition guarded (s : Panel.State) : Prop :=
  (Panel.inFlight s = [] /\ Panel._isAnalyzing s = false)
  \/ (exists w, Panel.inFlight s = [w] /\ Panel._isAnalyzing s = true).

(** How many issues of a list have a severity. *)
Definition Severity_eq_dec (a b : Severity) : {a = b} + {a <> b}.
Proof. decide equality. Defined.

Definition countSeverity (s : Severity) (issues : list AnalysisIssue) : nat :=
  count_occ Severity_eq_dec (map severity issues) s.

(** The issues of a list that lie in a file. *)
Definition inFile (f : jsstring) (i : AnalysisIssue) : bool := eqb (file i) f.

(** What [issuesByFile] maintains while it walks the issues [seen]: every
    key holds the issues of its file, in order, and every file seen is a
    key. *)
Definition groupsOf (seen : list AnalysisIssue)
    (m : JsMap.t (list AnalysisIssue)) : Prop :=
  (forall f fl,
      JsMap.get m f = Some fl -> fl = filter (inFile f) seen /\ fl <> [])
  /\ (forall i, In i seen -> JsMap.get m (file i) <> None).

(** The issues of the grouping example. *)
Definition issueAt (f : jsstring) (l : Z) : AnalysisIssue :=
  {| severity := SevWarning; code := js "analyzer"; message := js "m";
     file := f; line := l; column := 1 |}.

(** The comparison of two strings by their code units, a consistent
    comparator. *)
Fixpoint unitCompare (a b : jsstring) : Z :=
  match a, b with
  | [], [] => 0
  | [], _ :: _ => -1
  | _ :: _, [] => 1
  | x :: a', y :: b' =>
      if (x <? y)%N then -1 else if (y <? x)%N then 1 else unitCompare a' b'
  end.

(** ** Vocabulary of the further properties *)

(** The code units [_escapeHtml] replaces. *)
Definition special (c : N) : bool :=
  ((c =? 38) || (c =? 60) || (c =? 62) || (c =? 34) || (c =? 39))%N.

(** A text made of code units that need no escaping and of the five
    entities. *)
Inductive Escaped : jsstring -> Prop :=
| Escaped_nil : Escaped []
| Escaped_unit c s : special c = false -> Escaped s -> Escaped (c :: s)
| Escaped_amp s : Escaped s -> Escaped (js "&amp;" ++ s)
| Escaped_lt s : Escaped s -> Escaped (js "&lt;" ++ s)
| Escaped_gt s : Escaped s -> Escaped (js "&gt;" ++ s)
| Escaped_quot s : Escaped s -> Escaped (js "&quot;" ++ s)
| Escaped_apos s : Escaped s -> Escaped (js "&#039;" ++ s).

(** What a browser reads back from an escaped text: each of the five
    entities stands for its character.  [skip] counts the code units of
    an entity that are still to be passed over. *)
Fixpoint unescapeFrom (skip : nat) (s : jsstring) : jsstring :=
  match s with
  | [] => []
  | c :: s' =>
      match skip with
      | S k => unescapeFrom k s'
      | O =>
          if startsWith s (js "&amp;") then 38%N :: unescapeFrom 4 s'
          else if startsWith s (js "&lt;") then 60%N :: unescapeFrom 3 s'
          else if startsWith s (js "&gt;") then 62%N :: unescapeFrom 3 s'
          else if startsWith s (js "&quot;") then 34%N :: unescapeFrom 5 s'
          else if startsWith s (js "&#039;") then 39%N :: unescapeFrom 5 s'
          else c :: unescapeFrom 0 s'
      end
  end.

Definition unescapeHtml (s : jsstring) : jsstring := unescapeFrom 0 s.

(** The text report read as blocks: the lines before the first line that
    starts an issue, and then each such line (its captures) with the lines
    that follow it up to the next one. *)
Fixpoint blocksFrom (lines : list jsstring)
  : list jsstring * list (Regex.Groups * list jsstring) :=
  match lines with
  | [] => ([], [])
  | l :: rest =>
      let (lead, blocks) := blocksFrom rest in
      match Regex.issueStart l with
      | Some g => ([], (g, lead) :: blocks)
      | None => (l :: lead, blocks)
      end
  end.

(** The continuation texts of a block: its lines trimmed, the blank ones
    left out. *)
Definition continuations (lines : list jsstring) : list jsstring :=
  filter (fun t => negb (eqb t [])) (map trim lines).

(** The issue of a block. *)
Definition issueOfBlock (cwd root : jsstring)
    (block : Regex.Groups * list jsstring) : TextIssue :=
  fold_left appendMessage (continuations (snd block))
            (startIssue cwd root (fst block)).

Definition startsIssue (l : jsstring) : bool :=
  match Regex.issueStart l with
  | Some _ => true
  | None => false
  end.

(** The word the text report uses for a severity. *)
Definition severityWord (s : Severity) : jsstring :=
  match s with
  | SevError => js "error"
  | SevWarning => js "warning"
  | SevInfo => js "info"
  | SevHint => js "hint"
  end.

Definition whitespace (s : jsstring) : Prop :=
  s <> [] /\ Forall (fun c => isWhiteSpace c = true) s.

Definition oneLine (s : jsstring) : Prop :=
  s <> [] /\ Forall (fun c => isLineTerminator c = false) s.

(** A tool that prints [null] in JSON mode and the report of the example
    in text mode, and a parser that reads [null]. *)
Definition nullExec (command workspaceRoot : jsstring) : ExecOutcome :=
  if eqb command (js "flutter analyze --format=json")
  then Resolved (js "null") []
  else Resolved exampleReport [].

Definition parseNull (text : jsstring) : option JsVal :=
  if eqb text (js "null") then Some JNull else None.

(** The entries of the editor's diagnostics the decoder keeps. *)
Definition retained (uri : Vscode.Uri) : bool :=
  eqb (Vscode.scheme uri) (js "file")
  && endsWith (Vscode.fsPath uri) (js ".dart").

(** The calls of [refresh] among the events of a panel. *)
Definition refreshCalls (events : list Panel.Event) : nat :=
  List.length
    (filter (fun e => match e with
                      | Panel.Refresh _ _ => true
                      | Panel.Settle _ _ => false
                      end)
            events).

(** The runs in flight that still wait for the JSON invocation. *)
Definition awaitingJson (runs : list Panel.Waiting) : nat :=
  List.length
    (filter (fun w => match w with
                      | Panel.AwaitJsonExec => true
                      | Panel.AwaitTextExec => false
                      end)
            runs).

(** The path of the document the handler shows, if it shows one. *)
Definition shownPath (o : OpenOutcome) : option jsstring :=
  match o with
  | Ignored => None
  | Shown fullPath _ _ => Some fullPath
  | ShownThenThrown fullPath => Some fullPath
  end.

(** * Properties *)

(** ** Strings *)

Lemma eqb_eq (a b : jsstring) : eqb a b = true <-> a = b.
Proof.
  revert b; induction a as [|x a IH]; intros [|y b]; simpl;
    try (split; [discriminate | congruence]); [tauto|].
  rewrite andb_true_iff, N.eqb_eq, IH.
  split; [intros [-> ->]; reflexivity | intros H; inversion H; auto].
Qed.

Lemma eqb_refl (a : jsstring) : eqb a a = true.
Proof. apply eqb_eq; reflexivity. Qed.

Lemma eqb_neq (a b : jsstring) : eqb a b = false <-> a <> b.
Proof.
  rewrite <- eqb_eq. destruct (eqb a b); split; congruence.
Qed.

(** ** The severity mapper *)

Lemma lowerUnit_sameLetter x y :
  ((y < 65)%N \/ (90 < y)%N) -> lowerUnit x = y <-> sameLetter x y.
Proof.
  intros Hy. unfold lowerUnit, sameLetter.
  destruct ((65 <=? x)%N && (x <=? 90)%N) eqn:E.
  - apply andb_true_iff in E as [E1 E2].
    apply N.leb_le in E1, E2. split; [intros <-; right; auto | ].
    intros [-> | (_ & _ & ->)]; [lia | reflexivity].
  - apply andb_false_iff in E.
    rewrite !N.leb_gt in E. split; [auto | ].
    intros [-> | (? & ? & _)]; [reflexivity | lia].
Qed.

Lemma toLowerCase_label s label :
  noCapital label ->
  eqb (toLowerCase s) label = true <-> equalsIgnoringCase s label.
Proof.
  intros Hl. rewrite eqb_eq. unfold toLowerCase, equalsIgnoringCase.
  revert label Hl. induction s as [|x s IH]; intros [|y label] Hl; simpl.
  - split; constructor.
  - split; [discriminate | inversion 1].
  - split; [discriminate | inversion 1].
  - inversion Hl as [|? ? Hy Hl']; subst. split.
    + intros H; inversion H; subst. constructor.
      * apply lowerUnit_sameLetter; auto.
      * apply IH; auto.
    + intros H; inversion H; subst. f_equal.
      * apply lowerUnit_sameLetter; auto.
      * apply IH; auto.
Qed.

Ltac label_ok :=
  repeat (constructor; [right; vm_compute; reflexivity | ]); constructor.

Lemma noCapital_labels :
  noCapital (js "error") /\ noCapital (js "fatal") /\
  noCapital (js "warning") /\ noCapital (js "warn") /\
  noCapital (js "info") /\ noCapital (js "information").
Proof. unfold noCapital. repeat apply conj; label_ok. Qed.

(** What the three tests of [_mapSeverity] answered, read off its result. *)
Lemma mapSeverity_tests s :
  let lower := toLowerCase s in
  match _mapSeverity s with
  | SevError => eqb lower (js "error") || eqb lower (js "fatal") = true
  | SevWarning =>
      eqb lower (js "error") || eqb lower (js "fatal") = false /\
      eqb lower (js "warning") || eqb lower (js "warn") = true
  | SevInfo =>
      eqb lower (js "error") || eqb lower (js "fatal") = false /\
      eqb lower (js "warning") || eqb lower (js "warn") = false /\
      eqb lower (js "info") || eqb lower (js "information") = true
  | SevHint =>
      eqb lower (js "error") || eqb lower (js "fatal") = false /\
      eqb lower (js "warning") || eqb lower (js "warn") = false /\
      eqb lower (js "info") || eqb lower (js "information") = false
  end.
Proof.
  unfold _mapSeverity. cbv zeta.
  destruct (eqb (toLowerCase s) (js "error")
            || eqb (toLowerCase s) (js "fatal"));
    [reflexivity | ].
  destruct (eqb (toLowerCase s) (js "warning")
            || eqb (toLowerCase s) (js "warn")); [auto | ].
  destruct (eqb (toLowerCase s) (js "info")
            || eqb (toLowerCase s) (js "information")); auto.
Qed.

Lemma mapSeverity_of_lower s label sev :
  eqb (toLowerCase s) label = true ->
  (let lower := label in
   if eqb lower (js "error") || eqb lower (js "fatal") then SevError
   else if eqb lower (js "warning") || eqb lower (js "warn") then SevWarning
   else if eqb lower (js "info") || eqb lower (js "information") then SevInfo
   else SevHint) = sev ->
  _mapSeverity s = sev.
Proof.
  intros H. apply eqb_eq in H. unfold _mapSeverity. rewrite H. auto.
Qed.

Lemma mapSeverity_by_label s :
  (eqb (toLowerCase s) (js "error") = true -> _mapSeverity s = SevError) /\
  (eqb (toLowerCase s) (js "fatal") = true -> _mapSeverity s = SevError) /\
  (eqb (toLowerCase s) (js "warning") = true -> _mapSeverity s = SevWarning) /\
  (eqb (toLowerCase s) (js "warn") = true -> _mapSeverity s = SevWarning) /\
  (eqb (toLowerCase s) (js "info") = true -> _mapSeverity s = SevInfo) /\
  (eqb (toLowerCase s) (js "information") = true -> _mapSeverity s = SevInfo).
Proof.
  repeat split; intros H;
    apply (mapSeverity_of_lower s _ _ H); vm_compute; reflexivity.
Qed.

(** C6: [_mapSeverity] is defined on every string and answers one of the
    four severities: error exactly for the strings that read "error" or
    "fatal" whatever their case, otherwise warning exactly for "warning" or
    "warn", otherwise info exactly for "info" or "information", and hint
    for every other string; "ERROR", "Fatal", "warn" and "xyz" map to
    error, error, warning and hint. *)
Theorem mapSeverity_total_case_insensitive :
  forall s : jsstring,
    In (_mapSeverity s) [SevError; SevWarning; SevInfo; SevHint] /\
    (_mapSeverity s = SevError <->
       equalsIgnoringCase s (js "error")
       \/ equalsIgnoringCase s (js "fatal")) /\
    (_mapSeverity s = SevWarning <->
       equalsIgnoringCase s (js "warning")
       \/ equalsIgnoringCase s (js "warn")) /\
    (_mapSeverity s = SevInfo <->
       equalsIgnoringCase s (js "info")
       \/ equalsIgnoringCase s (js "information")) /\
    (_mapSeverity s = SevHint <->
       ~ (equalsIgnoringCase s (js "error") \/ equalsIgnoringCase s (js "fatal")
          \/ equalsIgnoringCase s (js "warning")
          \/ equalsIgnoringCase s (js "warn")
          \/ equalsIgnoringCase s (js "info")
          \/ equalsIgnoringCase s (js "information"))) /\
    _mapSeverity (js "ERROR") = SevError /\
    _mapSeverity (js "Fatal") = SevError /\
    _mapSeverity (js "warn") = SevWarning /\
    _mapSeverity (js "xyz") = SevHint.
Proof.
  intros s.
  destruct (mapSeverity_by_label s)
    as (B1 & B2 & B3 & B4 & B5 & B6).
  destruct noCapital_labels as (L1 & L2 & L3 & L4 & L5 & L6).
  pose proof (toLowerCase_label s _ L1) as E1.
  pose proof (toLowerCase_label s _ L2) as E2.
  pose proof (toLowerCase_label s _ L3) as E3.
  pose proof (toLowerCase_label s _ L4) as E4.
  pose proof (toLowerCase_label s _ L5) as E5.
  pose proof (toLowerCase_label s _ L6) as E6.
  pose proof (mapSeverity_tests s) as T.
  split; [destruct (_mapSeverity s); simpl; tauto | ].
  repeat split; try reflexivity.
  - intros H. rewrite H in T. apply orb_true_iff in T. tauto.
  - intros [H | H]; [apply B1 | apply B2]; tauto.
  - intros H. rewrite H in T. destruct T as [_ T].
    apply orb_true_iff in T. tauto.
  - intros [H | H]; [apply B3 | apply B4]; tauto.
  - intros H. rewrite H in T. destruct T as (_ & _ & T).
    apply orb_true_iff in T. tauto.
  - intros [H | H]; [apply B5 | apply B6]; tauto.
  - intros H. rewrite H in T. destruct T as (T1 & T2 & T3).
    apply orb_false_iff in T1, T2, T3.
    destruct T1, T2, T3.
    intros [C | [C | [C | [C | [C | C]]]]];
      [apply E1 in C | apply E2 in C | apply E3 in C
       | apply E4 in C | apply E5 in C | apply E6 in C]; congruence.
  - intros H. destruct (_mapSeverity s); try reflexivity; exfalso; apply H.
    + apply orb_true_iff in T. tauto.
    + destruct T as [_ T]. apply orb_true_iff in T. tauto.
    + destruct T as (_ & _ & T). apply orb_true_iff in T. tauto.
Qed.

(** ** The JSON decoder *)

Lemma get_getOpt v name :
  nullish v = false -> Js.get v name = Ok (Js.getOpt v name).
Proof. destruct v; simpl; intros H; try discriminate; reflexivity. Qed.

Lemma asString_ok v :
  (exists s, Js.asString v = Ok s) <-> isString v = true.
Proof.
  destruct v; simpl; split; intros H; try discriminate;
    try (destruct H; discriminate); eauto.
Qed.

Lemma parseIssue_ok_iff cwd root v :
  (exists i, _parseIssue cwd v root = Ok i) <-> issueDecodes v = true.
Proof.
  unfold issueDecodes, _parseIssue.
  destruct (nullish v) eqn:Hn.
  - simpl. split; [ | discriminate ].
    intros [i H]. destruct v; simpl in *; discriminate.
  - rewrite !(get_getOpt v _ Hn). simpl.
    destruct (Js.asString (Js.or (Js.getOpt v "severity")
                                 (Js.getOpt v "level")))
      as [sev | ] eqn:H1.
    + assert (S1 : isString (Js.or (Js.getOpt v "severity")
                                   (Js.getOpt v "level")) = true)
        by (apply asString_ok; eauto).
      rewrite S1. simpl.
      destruct (Js.asString
                  (Js.or (Js.or (Js.getOpt (Js.getOpt v "location") "file")
                                (Js.getOpt v "file")) (JStr [])))
        as [f | ] eqn:H2.
      * simpl. split; [intros _ | eauto].
        apply asString_ok; eauto.
      * simpl. split; [intros [i H]; discriminate | ].
        intros H. apply asString_ok in H as [f H]. congruence.
    + simpl. split; [intros [i H]; discriminate | ].
      intros H. apply andb_true_iff in H as [H _].
      apply asString_ok in H as [x H]. congruence.
Qed.

Lemma mapM_ok_iff {A B} (f : A -> result B) (l : list A) :
  (exists r, mapM f l = Ok r) <-> Forall (fun a => exists b, f a = Ok b) l.
Proof.
  induction l as [|a l IH]; simpl.
  - split; eauto.
  - split.
    + intros [r H]. destruct (f a) as [b | ] eqn:Ha; simpl in H;
        [ | discriminate ].
      destruct (mapM f l) as [bs | ] eqn:Hl; simpl in H; [ | discriminate ].
      constructor; [eauto | apply IH; eauto].
    + intros H. inversion H as [|? ? [b Hb] Hl]; subst.
      apply IH in Hl as [bs Hbs]. rewrite Hb, Hbs. simpl. eauto.
Qed.

Lemma mapM_length {A B} (f : A -> result B) (l : list A) r :
  mapM f l = Ok r -> List.length r = List.length l.
Proof.
  revert r. induction l as [|a l IH]; simpl; intros r H.
  - inversion H; reflexivity.
  - destruct (f a) as [b | ]; simpl in H; [ | discriminate ].
    destruct (mapM f l) as [bs | ]; simpl in H; [ | discriminate ].
    inversion H; subst. simpl. f_equal. apply IH. reflexivity.
Qed.

Lemma mapM_parseIssue_ok_iff cwd root l :
  (exists r, mapM (fun issue => _parseIssue cwd issue root) l = Ok r)
  <-> forallb issueDecodes l = true.
Proof.
  rewrite mapM_ok_iff, forallb_forall, Forall_forall.
  split; intros H x Hx; apply (parseIssue_ok_iff cwd root), H, Hx.
Qed.

Lemma parseJsonOutput_ok_iff cwd root v :
  (exists l, _parseJsonOutput cwd v root = Ok l) <-> decodable v = true.
Proof.
  unfold decodable, _parseJsonOutput.
  destruct (nullish v) eqn:Hn.
  - simpl. split; [ | discriminate ].
    intros [i H]. destruct v; simpl in *; discriminate.
  - rewrite !(get_getOpt v _ Hn). simpl.
    destruct (Js.truthy (Js.getOpt v "severity")
              && Js.truthy (Js.getOpt v "code")).
    + rewrite <- (parseIssue_ok_iff cwd root). split.
      * intros [l H].
        destruct (_parseIssue cwd v root); [eauto | discriminate].
      * intros [i H]. rewrite H. simpl. eauto.
    + destruct v; simpl in *; try discriminate;
        try (split; eauto; fail);
        try (apply mapM_parseIssue_ok_iff).
      destruct (Js.lookup (js "diagnostics") fields) eqn:D; simpl;
        try (split; [eauto | intros _; eauto]; fail);
        try (split; [intros [l H]; discriminate | discriminate]; fail).
      * destruct b; simpl;
          (split; [try (intros [l H]; discriminate); eauto
                  | try discriminate; eauto]).
      * destruct (negb (isZero n)); simpl;
          (split; [try (intros [l H]; discriminate); eauto
                  | try discriminate; eauto]).
      * destruct (negb (eqb s [])); simpl;
          (split; [try (intros [l H]; discriminate); eauto
                  | try discriminate; eauto]).
      * apply mapM_parseIssue_ok_iff.
Qed.

(** C1, as the code has it: the decoder throws a [TypeError] on [null],
    which matches none of the three shapes, and on an array whose element
    has no severity. *)
Lemma parseJsonOutput_null_raises :
  _parseJsonOutput (js "/") JNull (js "/root") = TypeError /\
  _parseJsonOutput (js "/") (JArr [JObj []]) (js "/root") = TypeError.
Proof. split; reflexivity. Qed.

(** C1, amended: on a successfully parsed payload the decoder returns a list
    of issues exactly when the payload is [decodable], and throws
    otherwise; every payload other than [null] that matches none of the
    three shapes yields the empty list, and so do [[]] and
    [{"unrelatedField":1}]; an array that is decoded yields one issue for
    each element. *)
Theorem parseJsonOutput_returns_or_raises :
  forall (cwd root : jsstring) (v : JsVal),
    ((exists l, _parseJsonOutput cwd v root = Ok l) <-> decodable v = true) /\
    (decodable v = false <-> _parseJsonOutput cwd v root = TypeError) /\
    (nullish v = false -> matchesNoShape v = true ->
     _parseJsonOutput cwd v root = Ok []) /\
    _parseJsonOutput cwd (JArr []) root = Ok [] /\
    _parseJsonOutput cwd unrelatedPayload root = Ok [] /\
    (forall l issues,
        _parseJsonOutput cwd (JArr l) root = Ok issues ->
        List.length issues = List.length l).
Proof.
  intros cwd root v.
  pose proof (parseJsonOutput_ok_iff cwd root v) as Hiff.
  split; [exact Hiff | ].
  split.
  { destruct (decodable v) eqn:D.
    - destruct Hiff as [_ H]. destruct (H eq_refl) as [l E]. rewrite E.
      split; discriminate.
    - destruct (_parseJsonOutput cwd v root) as [l | ] eqn:E.
      + exfalso. destruct Hiff as [H _].
        assert (false = true) by (apply H; eauto). discriminate.
      + split; reflexivity. }
  split.
  { intros Hn Hs. unfold matchesNoShape in Hs.
    apply andb_true_iff in Hs as [Hs H3].
    apply andb_true_iff in Hs as [H1 H2].
    apply negb_true_iff in H1, H2, H3.
    unfold _parseJsonOutput. rewrite !(get_getOpt v _ Hn). simpl.
    rewrite H1, H2, H3. reflexivity. }
  split; [reflexivity | ].
  split; [reflexivity | ].
  intros l issues H. unfold _parseJsonOutput in H. simpl in H.
  apply mapM_length in H. exact H.
Qed.

(** C8: the single-issue payload of the example, decoded against the root
    [/root], yields exactly one issue: severity error, code "E1", message
    "m", file "a.dart", line 3, column 5. *)
Theorem parseJsonOutput_single_issue :
  forall cwd : jsstring,
    _parseJsonOutput cwd singleIssuePayload (js "/root")
    = Ok [ {| severity := SevError;
              code := JStr (js "E1");
              message := JStr (js "m");
              file := js "a.dart";
              line := JNum 3;
              column := JNum 5 |} ].
Proof. intros cwd. vm_compute. reflexivity. Qed.

(** ** Paths *)

(** The example of Node's documentation, and the corner cases of the
    root. *)
Example relative_documented :
  Path.relative (js "/") (js "/data/orandea/test/aaa")
                (js "/data/orandea/impl/bbb") = js "../../impl/bbb"
  /\ Path.relative (js "/home") (js "/") (js "/a") = js "a"
  /\ Path.relative (js "/home") (js "/a") (js "/") = js ".."
  /\ Path.relative (js "/home") (js "/a/b/") (js "/a//b/./c/../d") = js "d"
  /\ Path.relative (js "/home") (js "x") (js "y/z") = js "../y/z"
  /\ Path.relative (js "/home") (js "") (js "/home/u/f") = js "u/f".
Proof. repeat split; vm_compute; reflexivity. Qed.

Lemma split_nonempty sep s : split sep s <> [].
Proof.
  destruct s as [|c s]; simpl; [discriminate | ].
  destruct (N.eqb c sep); [discriminate | ].
  destruct (split sep s); discriminate.
Qed.

Lemma split_app_sep sep a b :
  split sep (a ++ sep :: b) = split sep a ++ split sep b.
Proof.
  induction a as [|c a IH]; simpl.
  - rewrite N.eqb_refl. reflexivity.
  - destruct (N.eqb c sep); [rewrite IH; reflexivity | ].
    rewrite IH. pose proof (split_nonempty sep a) as Hne.
    destruct (split sep a); [congruence | reflexivity].
Qed.

Lemma split_no_sep sep s piece : In piece (split sep s) -> ~ In sep piece.
Proof.
  revert piece. induction s as [|c s IH]; simpl; intros piece H.
  - destruct H as [<- | []]. auto.
  - destruct (N.eqb c sep) eqn:E.
    + destruct H as [<- | H]; [auto | apply IH, H].
    + pose proof (split_nonempty sep s) as Hne.
      destruct (split sep s) as [|w ws]; [congruence | ].
      destruct H as [<- | H].
      * intros [-> | Hin]; [rewrite N.eqb_refl in E; discriminate | ].
        apply (IH w); simpl; auto.
      * apply IH. simpl; auto.
Qed.

Lemma segments_app_sep a b :
  Path.segments (a ++ Path.sep :: b) = Path.segments a ++ Path.segments b.
Proof.
  unfold Path.segments. rewrite split_app_sep, filter_app. reflexivity.
Qed.

Lemma segments_segment p : Forall segment (Path.segments p).
Proof.
  apply Forall_forall. intros s H. unfold Path.segments in H.
  apply filter_In in H as [H Hne]. split.
  - intros ->. discriminate.
  - apply (split_no_sep _ _ _ H).
Qed.

Lemma normalizeOnto_app stack xs ys :
  Path.normalizeOnto stack (xs ++ ys)
  = Path.normalizeOnto (Path.normalizeOnto stack xs) ys.
Proof.
  revert stack. induction xs as [|x xs IH]; intros stack; simpl; auto.
  destruct (eqb x (js ".")); [apply IH | ].
  destruct (eqb x (js "..")); apply IH.
Qed.

Lemma Forall_tl {A} (P : A -> Prop) l : Forall P l -> Forall P (tl l).
Proof. intros H; destruct H; simpl; auto. Qed.

Lemma normalizeOnto_segment stack segs :
  Forall segment stack -> Forall segment segs ->
  Forall segment (Path.normalizeOnto stack segs).
Proof.
  revert stack. induction segs as [|s segs IH]; intros stack Hs Hg; simpl; auto.
  inversion Hg; subst.
  destruct (eqb s (js ".")); [auto | ].
  destruct (eqb s (js "..")); [apply IH; auto using Forall_tl | auto].
Qed.

Lemma resolve_segment cwd p : Forall segment (Path.resolve cwd p).
Proof.
  unfold Path.resolve, Path.normalizeSegments. apply Forall_rev.
  apply normalizeOnto_segment; [constructor | ].
  destruct (Path.isAbsolute p);
    [ | apply Forall_app; split]; apply segments_segment.
Qed.

Lemma dropCommon_prefix l t : Path.dropCommon l (l ++ t) = ([], t).
Proof.
  induction l as [|x l IH]; simpl; [destruct t; reflexivity | ].
  rewrite eqb_refl. exact IH.
Qed.

Lemma dropCommon_suffix a b f t :
  Path.dropCommon a b = (f, t) -> forall s, In s t -> In s b.
Proof.
  revert b f t. induction a as [|x a IH]; intros b f t H s Hs; simpl in H.
  - inversion H; subst; auto.
  - destruct b as [|y b]; [inversion H; subst; auto | ].
    destruct (eqb x y); [ | inversion H; subst; auto].
    right. eapply IH; eauto.
Qed.

(** What [path.relative] answers never starts with a separator. *)
Lemma relative_not_absolute cwd from to :
  Path.isAbsolute (Path.relative cwd from to) = false.
Proof.
  unfold Path.relative. destruct (eqb from to); [reflexivity | ].
  destruct (Path.dropCommon (Path.resolve cwd from) (Path.resolve cwd to))
    as [f t] eqn:E.
  destruct f as [|x f]; simpl; [ | reflexivity].
  destruct t as [|s t]; simpl; [reflexivity | ].
  assert (Hs : segment s).
  { pose proof (resolve_segment cwd to) as Hall.
    rewrite Forall_forall in Hall. apply Hall.
    eapply dropCommon_suffix; [exact E | simpl; auto]. }
  destruct Hs as [Hne Hsep].
  destruct s as [|c s]; [congruence | ]. simpl.
  apply N.eqb_neq. intros ->. apply Hsep. simpl; auto.
Qed.

Lemma startsWith_absolute p root :
  Path.isAbsolute root = true -> Path.isAbsolute p = false ->
  startsWith p root = false.
Proof.
  destruct root as [|r root]; simpl; [discriminate | ].
  intros Hr. apply N.eqb_eq in Hr. subst r.
  destruct p as [|c p]; simpl; [reflexivity | ].
  intros ->. reflexivity.
Qed.

Lemma startsWith_app s t : startsWith (s ++ t) s = true.
Proof.
  induction s; simpl; [destruct t; reflexivity | rewrite N.eqb_refl; auto].
Qed.

Lemma eqb_app_cons s c t : eqb s (s ++ c :: t) = false.
Proof.
  apply eqb_neq. intros H. apply (f_equal (@List.length N)) in H.
  rewrite length_app in H. simpl in H. lia.
Qed.

(** Under an absolute root, two plain segments appended to a path that
    resolves like the root are what is left of it relative to the root. *)
Lemma relative_two_below cwd root to a b :
  eqb root to = false ->
  Path.resolve cwd to
  = Path.normalizeSegments (Path.segments root ++ [a; b]) ->
  Path.isAbsolute root = true ->
  eqb a (js ".") = false -> eqb a (js "..") = false ->
  eqb b (js ".") = false -> eqb b (js "..") = false ->
  Path.relative cwd root to = a ++ Path.sep :: b.
Proof.
  intros Hne Hto Habs Ha1 Ha2 Hb1 Hb2. unfold Path.relative.
  rewrite Hne, Hto. unfold Path.resolve at 1. rewrite Habs.
  unfold Path.normalizeSegments. rewrite normalizeOnto_app. simpl.
  rewrite Ha1, Ha2, Hb1, Hb2. simpl.
  rewrite <- app_assoc. simpl. rewrite dropCommon_prefix. simpl.
  rewrite app_nil_r. reflexivity.
Qed.

Lemma relative_below_root cwd root :
  Path.isAbsolute root = true ->
  Path.relative cwd root (root ++ js "/a/b.dart") = js "a/b.dart".
Proof.
  intros Habs.
  apply (relative_two_below cwd root _ (js "a") (js "b.dart"));
    try reflexivity; auto.
  - apply (eqb_app_cons root 47%N (js "a/b.dart")).
  - unfold Path.resolve.
    assert (Path.isAbsolute (root ++ js "/a/b.dart") = true) as ->
        by (destruct root; [discriminate | exact Habs]).
    change (js "/a/b.dart") with (Path.sep :: js "a/b.dart").
    rewrite segments_app_sep. reflexivity.
Qed.

(** When the process runs in the root, a path the report gives relative to
    the root comes back as it is. *)
Lemma relative_in_root root a b :
  Path.isAbsolute root = true ->
  Path.isAbsolute (a ++ Path.sep :: b) = false ->
  Path.segments (a ++ Path.sep :: b) = [a; b] ->
  eqb a (js ".") = false -> eqb a (js "..") = false ->
  eqb b (js ".") = false -> eqb b (js "..") = false ->
  Path.relative root root (a ++ Path.sep :: b) = a ++ Path.sep :: b.
Proof.
  intros Habs Hrel Hseg Ha1 Ha2 Hb1 Hb2.
  apply relative_two_below; auto.
  - apply eqb_neq. intros ->. congruence.
  - unfold Path.resolve. rewrite Hrel, Hseg. reflexivity.
Qed.

Lemma split_no_sep_id sep s : ~ In sep s -> split sep s = [s].
Proof.
  induction s as [|c s IH]; simpl; intros H; [reflexivity | ].
  destruct (N.eqb c sep) eqn:E;
    [apply N.eqb_eq in E; subst; exfalso; apply H; auto | ].
  rewrite IH by tauto. reflexivity.
Qed.

Lemma segments_of_segment s : segment s -> Path.segments s = [s].
Proof.
  intros [Hne Hsep]. unfold Path.segments.
  rewrite split_no_sep_id by exact Hsep. simpl.
  destruct s; [congruence | reflexivity].
Qed.

Lemma join_cons s t rest :
  Path.join (s :: t :: rest) = s ++ Path.sep :: Path.join (t :: rest).
Proof. reflexivity. Qed.

Lemma segments_join segs :
  Forall segment segs -> Path.segments (Path.join segs) = segs.
Proof.
  induction segs as [|s [|t rest] IH]; intros H.
  - reflexivity.
  - simpl. rewrite app_nil_r. apply segments_of_segment.
    inversion H; assumption.
  - rewrite join_cons, segments_app_sep.
    inversion H; subst. rewrite IH by assumption.
    rewrite segments_of_segment by assumption. reflexivity.
Qed.

Lemma dropCommon_spec a b f t :
  Path.dropCommon a b = (f, t) -> exists c, a = c ++ f /\ b = c ++ t.
Proof.
  revert b f t. induction a as [|x a IH]; intros b f t H; simpl in H.
  - inversion H; subst. exists []. auto.
  - destruct b as [|y b]; [inversion H; subst; exists []; auto | ].
    destruct (eqb x y) eqn:E; [ | inversion H; subst; exists []; auto].
    apply eqb_eq in E. subst y.
    destruct (IH _ _ _ H) as (c & -> & ->). exists (x :: c). auto.
Qed.

Lemma normalizeOnto_dots stack popped (l : list jsstring) :
  List.length popped = List.length l ->
  Path.normalizeOnto (popped ++ stack) (map (fun _ => js "..") l) = stack.
Proof.
  revert popped. induction l as [|x l IH]; intros [|p popped] H;
    try discriminate; simpl; [reflexivity | ].
  apply IH. simpl in H. lia.
Qed.

Lemma normalizeOnto_plain stack segs :
  Forall plain segs -> Path.normalizeOnto stack segs = rev segs ++ stack.
Proof.
  revert stack. induction segs as [|s segs IH]; intros stack H; simpl;
    [reflexivity | ].
  inversion H as [|? ? [H1 H2] Hs]; subst. rewrite H1, H2, IH by assumption.
  rewrite <- app_assoc. reflexivity.
Qed.

Lemma normalizeOnto_keeps_plain stack segs :
  Forall plain stack -> Forall plain (Path.normalizeOnto stack segs).
Proof.
  revert stack. induction segs as [|s segs IH]; intros stack H; simpl; auto.
  destruct (eqb s (js ".")) eqn:E1; [auto | ].
  destruct (eqb s (js "..")) eqn:E2; [apply IH, Forall_tl, H | ].
  apply IH. constructor; [split; assumption | exact H].
Qed.

Lemma resolve_plain cwd p : Forall plain (Path.resolve cwd p).
Proof.
  unfold Path.resolve, Path.normalizeSegments. apply Forall_rev.
  apply normalizeOnto_keeps_plain. constructor.
Qed.

Lemma segment_dots : segment (js "..").
Proof. split; [discriminate | ]. intros [H | [H | []]]; discriminate. Qed.

(** The path [path.relative] answers leads from [from] to [to]. *)
Lemma resolve_relative cwd from to :
  from <> [] ->
  Path.resolve cwd (from ++ Path.sep :: Path.relative cwd from to)
  = Path.resolve cwd to.
Proof.
  intros Hne.
  assert (Hbase : forall rest,
    Path.resolve cwd (from ++ Path.sep :: rest)
    = rev (Path.normalizeOnto (rev (Path.resolve cwd from))
                              (Path.segments rest))).
  { intros rest. unfold Path.resolve at 1.
    assert (Path.isAbsolute (from ++ Path.sep :: rest)
            = Path.isAbsolute from) as ->
        by (destruct from; [congruence | reflexivity]).
    rewrite segments_app_sep. unfold Path.normalizeSegments, Path.resolve.
    unfold Path.normalizeSegments. rewrite rev_involutive.
    destruct (Path.isAbsolute from);
      rewrite ?app_assoc, normalizeOnto_app; reflexivity. }
  rewrite Hbase. unfold Path.relative.
  destruct (eqb from to) eqn:E.
  - apply eqb_eq in E. subst to. simpl. apply rev_involutive.
  - destruct (Path.dropCommon (Path.resolve cwd from) (Path.resolve cwd to))
      as [f t] eqn:D.
    destruct (dropCommon_spec _ _ _ _ D) as (c & Hf & Ht).
    assert (St : Forall segment t).
    { pose proof (resolve_segment cwd to) as H. rewrite Ht in H.
      apply Forall_app in H. tauto. }
    assert (Pt : Forall plain t).
    { pose proof (resolve_plain cwd to) as H. rewrite Ht in H.
      apply Forall_app in H. tauto. }
    rewrite segments_join.
    + rewrite normalizeOnto_app, Hf, rev_app_distr.
      rewrite normalizeOnto_dots by apply length_rev.
      rewrite normalizeOnto_plain by exact Pt.
      rewrite rev_app_distr, !rev_involutive. symmetry. exact Ht.
    + apply Forall_app. split; [ | exact St].
      apply Forall_forall. intros s Hs. apply in_map_iff in Hs as (x & <- & _).
      apply segment_dots.
Qed.

(** The program only ever passes the path of the workspace folder as the
    root, which is absolute.  Against a root that is not, the consequences
    below would fail: against [a] the normaliser is not idempotent, and
    against the empty root it rewrites a path that is already relative. *)
Example relativeFile_relative_root :
  relativeFile (js "/") (js "a") (js "a/a/b") = js "a/b" /\
  relativeFile (js "/") (js "a") (js "a/b") = js "b" /\
  relativeFile (js "/") (js "") (js "x/../b") = js "b".
Proof. repeat split; vm_compute; reflexivity. Qed.

(** C7: for every path and every root, the normaliser answers
    [path.relative(root, rawPath)], the path made relative to the root,
    when the root is a string prefix of the path, and the path itself
    otherwise.  For every absolute root, which is what the program passes,
    the answer in the first case leads from the root to the file; the
    normaliser is idempotent; a path that is already relative comes back
    unchanged; and [root + "/a/b.dart"] gives ["a/b.dart"]. *)
Theorem relativeFile_absolute_root :
  forall cwd root rawPath : jsstring,
    (startsWith rawPath root = true ->
     relativeFile cwd root rawPath = Path.relative cwd root rawPath) /\
    (startsWith rawPath root = false ->
     relativeFile cwd root rawPath = rawPath) /\
    (Path.isAbsolute root = true ->
     (startsWith rawPath root = true ->
      Path.resolve cwd (root ++ Path.sep :: relativeFile cwd root rawPath)
      = Path.resolve cwd rawPath) /\
     relativeFile cwd root (relativeFile cwd root rawPath)
     = relativeFile cwd root rawPath /\
     (Path.isAbsolute rawPath = false ->
      relativeFile cwd root rawPath = rawPath) /\
     relativeFile cwd root (root ++ js "/a/b.dart") = js "a/b.dart").
Proof.
  intros cwd root rawPath. unfold relativeFile.
  split; [intros ->; reflexivity | ].
  split; [intros ->; reflexivity | ].
  intros Habs.
  assert (Hne : root <> []) by (intros ->; discriminate).
  split; [ | split; [ | split]].
  - intros ->. apply resolve_relative, Hne.
  - destruct (startsWith rawPath root) eqn:E.
    + rewrite (startsWith_absolute _ root Habs
                 (relative_not_absolute cwd root rawPath)).
      reflexivity.
    + rewrite E. reflexivity.
  - intros Hrel. rewrite (startsWith_absolute _ root Habs Hrel). reflexivity.
  - rewrite startsWith_app. apply relative_below_root, Habs.
Qed.

(** The root [/root] is absolute. *)
Lemma relativeFile_absolute_root_witness :
  Path.isAbsolute (js "/root") = true /\
  relativeFile (js "/") (js "/root") (js "/root/a/b.dart") = js "a/b.dart".
Proof.
  split; [reflexivity | ].
  apply (relativeFile_absolute_root (js "/") (js "/root") (js "lib/x.dart")).
  reflexivity.
Defined.

(** ** The text decoder *)

Example issueStart_examples :
  Regex.issueStart (js "info " ++ bullet :: js "  a b  " ++ bullet
                       :: js " lib/x.dart:3:14 " ++ bullet :: js " code")
  = Some (Regex.mkGroups (js "info") (js "a b") (js "lib/x.dart")
                         (js "3") (js "14"))
  /\ Regex.issueStart (js " error " ++ bullet :: js " m " ++ bullet
                          :: js " f:1:2") = None
  /\ Regex.issueStart (js "error - m - f:1:2") = None
  /\ Regex.issueStart (js "hint " ++ bullet :: js " m " ++ bullet
                          :: js " f:1") = None.
Proof. repeat split; vm_compute; reflexivity. Qed.

(** A line that does not start an issue and is not blank continues the
    message of the issue being accumulated, after one space; a blank line,
    or a line before the first issue, changes nothing. *)
Lemma textLine_continuation cwd root issues current ln :
  Regex.issueStart ln = None ->
  textLine cwd root (issues, current) ln
  = match current with
    | Some c =>
        if eqb (trim ln) [] then (issues, Some c)
        else (issues,
              Some {| severity := severity c; code := code c;
                      message := message c ++ js " " ++ trim ln;
                      file := file c; line := line c; column := column c |})
    | None => (issues, None)
    end.
Proof.
  intros H. unfold textLine. rewrite H.
  destruct current as [c | ]; [ | reflexivity].
  destruct (eqb (trim ln) []); reflexivity.
Qed.

(** C3, at a root the process does not run in: with the working directory
    [/] and the root [/root], the report of the example yields two issues
    with the messages, lines, columns and code of the claim, and the files
    [../lib/a.dart] and [../lib/b.dart]. *)
Theorem parseTextLines_example_outside_root :
  parseTextLines (js "/") (js "/root") exampleReport
  = [ {| severity := SevError;
         code := js "analyzer";
         message := js "Unused import this import is unused";
         file := js "../lib/a.dart";
         line := Finite 10;
         column := Finite 1 |};
      {| severity := SevWarning;
         code := js "analyzer";
         message := js "Missing return";
         file := js "../lib/b.dart";
         line := Finite 20;
         column := Finite 3 |} ].
Proof. vm_compute. reflexivity. Qed.

(** The same report, decoded by a process that runs in the root. *)
Lemma parseTextLines_example_in_root root :
  Path.isAbsolute root = true ->
  parseTextLines root root exampleReport
  = [ {| severity := SevError;
         code := js "analyzer";
         message := js "Unused import this import is unused";
         file := js "lib/a.dart";
         line := Finite 10;
         column := Finite 1 |};
      {| severity := SevWarning;
         code := js "analyzer";
         message := js "Missing return";
         file := js "lib/b.dart";
         line := Finite 20;
         column := Finite 3 |} ].
Proof.
  intros Habs.
  assert (Ha : Path.relative root root (js "lib/a.dart") = js "lib/a.dart")
    by (apply (relative_in_root root (js "lib") (js "a.dart")); auto).
  assert (Hb : Path.relative root root (js "lib/b.dart") = js "lib/b.dart")
    by (apply (relative_in_root root (js "lib") (js "b.dart")); auto).
  cbv -[Path.relative] in Ha, Hb |- *.
  rewrite Ha, Hb. reflexivity.
Qed.

(** ** The issue-start pattern *)

Section MatcherFacts.

Variable R : Type.

Lemma lit_inv p s (k : jsstring -> option R) r :
  Regex.lit p s k = Some r -> exists rest, s = p ++ rest /\ k rest = Some r.
Proof.
  revert s. induction p as [|c p IH]; intros s H; simpl in H.
  - exists s. auto.
  - destruct s as [|x s]; [discriminate | ].
    destruct (N.eqb x c) eqn:E; [ | discriminate].
    apply N.eqb_eq in E. subst x.
    destruct (IH _ H) as (rest & -> & Hk). exists rest. auto.
Qed.

Lemma alt_inv ps s (k : jsstring -> jsstring -> option R) r :
  Regex.alt ps s k = Some r ->
  exists p rest, In p ps /\ s = p ++ rest /\ k p rest = Some r.
Proof.
  induction ps as [|p ps IH]; simpl; [discriminate | ].
  destruct (Regex.lit p s (k p)) as [r' | ] eqn:E.
  - intros H; inversion H; subst.
    destruct (lit_inv _ _ _ _ E) as (rest & -> & Hk).
    exists p, rest. auto.
  - intros H. destruct (IH H) as (q & rest & Hq & Hs & Hk).
    exists q, rest. auto.
Qed.

Lemma greedyStar_inv cls matched s (k : jsstring -> jsstring -> option R) r :
  Regex.greedyStar R cls matched s k = Some r ->
  exists m rest,
    Forall (fun c => cls c = true) m /\ s = m ++ rest
    /\ k (matched ++ m) rest = Some r.
Proof.
  revert matched. induction s as [|c s IH]; intros matched H; simpl in H.
  - exists [], []. simpl; rewrite app_nil_r. repeat split; auto.
  - destruct (cls c) eqn:E.
    + destruct (Regex.greedyStar R cls (matched ++ [c]) s k) as [r' | ] eqn:G.
      * inversion H; subst.
        destruct (IH _ G) as (m & rest & Hm & -> & Hk).
        exists (c :: m), rest. rewrite <- app_assoc in Hk. repeat split; auto.
      * exists [], (c :: s). simpl; rewrite app_nil_r. repeat split; auto.
    + exists [], (c :: s). simpl; rewrite app_nil_r. repeat split; auto.
Qed.

Lemma greedyPlus_inv cls s (k : jsstring -> jsstring -> option R) r :
  Regex.greedyPlus cls s k = Some r ->
  exists m rest,
    m <> [] /\ Forall (fun c => cls c = true) m /\ s = m ++ rest
    /\ k m rest = Some r.
Proof.
  unfold Regex.greedyPlus. destruct s as [|c s]; [discriminate | ].
  destruct (cls c) eqn:E; [ | discriminate]. intros H.
  destruct (greedyStar_inv _ _ _ _ _ H) as (m & rest & Hm & -> & Hk).
  exists (c :: m), rest. repeat split; auto. discriminate.
Qed.

Lemma lazyStar_inv cls matched s (k : jsstring -> jsstring -> option R) r :
  Regex.lazyStar R cls matched s k = Some r ->
  exists m rest,
    Forall (fun c => cls c = true) m /\ s = m ++ rest
    /\ k (matched ++ m) rest = Some r.
Proof.
  revert matched. induction s as [|c s IH]; intros matched H; simpl in H.
  - destruct (k matched []) as [r' | ] eqn:K; [ | discriminate].
    exists [], []. simpl; rewrite app_nil_r. inversion H; subst.
    repeat split; auto.
  - destruct (k matched (c :: s)) as [r' | ] eqn:K.
    + exists [], (c :: s). simpl; rewrite app_nil_r. inversion H; subst.
      repeat split; auto.
    + destruct (cls c) eqn:E; [ | discriminate].
      destruct (IH _ H) as (m & rest & Hm & -> & Hk).
      exists (c :: m), rest. rewrite <- app_assoc in Hk. repeat split; auto.
Qed.

Lemma lazyPlus_inv cls s (k : jsstring -> jsstring -> option R) r :
  Regex.lazyPlus cls s k = Some r ->
  exists m rest,
    m <> [] /\ Forall (fun c => cls c = true) m /\ s = m ++ rest
    /\ k m rest = Some r.
Proof.
  unfold Regex.lazyPlus. destruct s as [|c s]; [discriminate | ].
  destruct (cls c) eqn:E; [ | discriminate]. intros H.
  destruct (lazyStar_inv _ _ _ _ _ H) as (m & rest & Hm & -> & Hk).
  exists (c :: m), rest. repeat split; auto. discriminate.
Qed.

End MatcherFacts.

Ltac regex_step H :=
  first
    [ apply greedyPlus_inv in H as (? & ? & ? & ? & ? & H)
    | apply lazyPlus_inv in H as (? & ? & ? & ? & ? & H)
    | apply lit_inv in H as (? & ? & H) ].

(** What a match captures: one of the four words, and two non-empty runs
    of digits. *)
Lemma issueStart_groups ln g :
  Regex.issueStart ln = Some g ->
  In (Regex.g1 g) [js "error"; js "warning"; js "info"; js "hint"] /\
  Regex.g2 g <> [] /\ Regex.g3 g <> [] /\
  Regex.g4 g <> [] /\ Forall (fun c => isDigit c = true) (Regex.g4 g) /\
  Regex.g5 g <> [] /\ Forall (fun c => isDigit c = true) (Regex.g5 g).
Proof.
  unfold Regex.issueStart. intros H.
  apply alt_inv in H as (m1 & r1 & Hm1 & _ & H).
  do 12 regex_step H.
  inversion H; subst; simpl. repeat split; auto.
Qed.

(** ** Numbers *)







Example parseInt_examples :
  parseInt (js "0") = Finite 0
  /\ parseInt (js "007") = Finite 7
  /\ parseInt (js "9007199254740992") = Finite 9007199254740992
  /\ parseInt (js "9007199254740993") = Finite 9007199254740992
  /\ parseInt (js "9007199254740995") = Finite 9007199254740996
  /\ parseInt (js "100000000000000000000000")
     = Finite 99999999999999991611392
  /\ parseInt (repeat 57%N 308%nat) <> Infinity
  /\ parseInt (repeat 57%N 309%nat) = Infinity.
Proof.
  repeat split; try (vm_compute; reflexivity).
  vm_compute. discriminate.
Qed.

(** ** The text decoder, block by block *)

Lemma issueStart_reads ln g :
  Regex.issueStart ln = Some g ->
  exists w1 w2 w3 w4 rest,
    ln = Regex.g1 g ++ w1 ++ bullet :: w2 ++ Regex.g2 g ++ w3
           ++ bullet :: w4 ++ Regex.g3 g ++ js ":" ++ Regex.g4 g
           ++ js ":" ++ Regex.g5 g ++ rest
    /\ In (Regex.g1 g) [js "error"; js "warning"; js "info"; js "hint"]
    /\ whitespace w1 /\ whitespace w2 /\ whitespace w3 /\ whitespace w4
    /\ oneLine (Regex.g2 g) /\ oneLine (Regex.g3 g)
    /\ digits (Regex.g4 g) /\ digits (Regex.g5 g).
Proof.
  unfold Regex.issueStart. intros H.
  apply alt_inv in H as (m1 & r1 & Hm1 & -> & H).
  apply greedyPlus_inv in H as (w1 & r2 & Hw1 & Fw1 & -> & H).
  apply lit_inv in H as (r3 & -> & H).
  apply greedyPlus_inv in H as (w2 & r4 & Hw2 & Fw2 & -> & H).
  apply lazyPlus_inv in H as (m2 & r5 & Hm2 & Fm2 & -> & H).
  apply greedyPlus_inv in H as (w3 & r6 & Hw3 & Fw3 & -> & H).
  apply lit_inv in H as (r7 & -> & H).
  apply greedyPlus_inv in H as (w4 & r8 & Hw4 & Fw4 & -> & H).
  apply lazyPlus_inv in H as (m3 & r9 & Hm3 & Fm3 & -> & H).
  apply lit_inv in H as (r10 & -> & H).
  apply greedyPlus_inv in H as (m4 & r11 & Hm4 & Fm4 & -> & H).
  apply lit_inv in H as (r12 & -> & H).
  apply greedyPlus_inv in H as (m5 & r13 & Hm5 & Fm5 & -> & H).
  inversion H; subst; clear H. simpl.
  exists w1, w2, w3, w4, r13.
  assert (D : forall m, Forall (fun c => Regex.dot c = true) m ->
                        Forall (fun c => isLineTerminator c = false) m).
  { intros m Hm. eapply Forall_impl; [ | exact Hm].
    intros c Hc. unfold Regex.dot in Hc. apply negb_true_iff in Hc.
    exact Hc. }
  unfold whitespace, oneLine, digits.
  repeat split; auto.
Qed.

(** The loop, from any state, against the blocks of the lines left. *)
Lemma textLines_blocks cwd root lines :
  forall issues current,
    (let (issues', current') :=
       fold_left (textLine cwd root) lines (issues, current) in
     match current' with
     | Some c => issues' ++ [c]
     | None => issues'
     end)
    = issues
        ++ match current with
           | Some c =>
               [fold_left appendMessage
                          (continuations (fst (blocksFrom lines))) c]
           | None => []
           end
        ++ map (issueOfBlock cwd root) (snd (blocksFrom lines)).
Proof.
  induction lines as [|l lines IH]; intros issues current.
  - simpl. destruct current; simpl; [reflexivity | ].
    rewrite app_nil_r. reflexivity.
  - cbn [fold_left blocksFrom].
    destruct (blocksFrom lines) as [lead blocks] eqn:B.
    unfold textLine at 2.
    destruct (Regex.issueStart l) as [g | ] eqn:E.
    + rewrite IH. cbn [fst snd map]. unfold issueOfBlock at 2.
      cbn [fst snd]. destruct current as [c | ]; simpl.
      * rewrite <- app_assoc. reflexivity.
      * reflexivity.
    + destruct current as [c | ].
      * cbn [fst snd]. unfold continuations. cbn [map filter].
        destruct (negb (eqb (trim l) [])); rewrite IH; reflexivity.
      * rewrite IH. reflexivity.
Qed.

Lemma parseTextLines_by_blocks cwd root stdout :
  parseTextLines cwd root stdout
  = map (issueOfBlock cwd root) (snd (blocksFrom (split 10 stdout))).
Proof.
  unfold parseTextLines.
  apply (textLines_blocks cwd root (split 10 stdout) [] None).
Qed.

Lemma fold_appendMessage_keeps texts c :
  let i := fold_left appendMessage texts c in
  severity i = severity c /\ code i = code c /\ file i = file c
  /\ line i = line c /\ column i = column c.
Proof.
  revert c. induction texts as [|t texts IH]; intros c; simpl; [tauto | ].
  apply (IH (appendMessage c t)).
Qed.


(** ** Lines and columns *)



Lemma parseIssue_positions cwd root e i :
  _parseIssue cwd e root = Ok i ->
  line i = Js.or (suppliedLine e) (JNum 1) /\
  column i = Js.or (suppliedColumn e) (JNum 1).
Proof.
  unfold _parseIssue. intros H.
  destruct (nullish e) eqn:Hn;
    [destruct e; simpl in *; discriminate | ].
  rewrite !(get_getOpt e _ Hn) in H. simpl in H.
  destruct (Js.asString _); simpl in H; [ | discriminate].
  destruct (Js.asString _); simpl in H; [ | discriminate].
  inversion H; subst; simpl. split; reflexivity.
Qed.

Lemma mapM_In {A B} (f : A -> result B) l r b :
  mapM f l = Ok r -> In b r -> exists a, In a l /\ f a = Ok b.
Proof.
  revert r. induction l as [|a l IH]; simpl; intros r H Hb.
  - inversion H; subst. destruct Hb.
  - destruct (f a) as [b' | ] eqn:Ha; simpl in H; [ | discriminate].
    destruct (mapM f l) as [bs | ] eqn:Hl; simpl in H; [ | discriminate].
    inversion H; subst. destruct Hb as [<- | Hb]; [eauto | ].
    destruct (IH _ eq_refl Hb) as (a' & Ha' & Hf). eauto.
Qed.

Lemma mapM_Forall2 {A B} (f : A -> result B) l r :
  mapM f l = Ok r -> Forall2 (fun a b => f a = Ok b) l r.
Proof.
  revert r. induction l as [|a l IH]; simpl; intros r H.
  - inversion H; subst. constructor.
  - destruct (f a) as [b | ] eqn:Ha; simpl in H; [ | discriminate].
    destruct (mapM f l) as [bs | ] eqn:Hl; simpl in H; [ | discriminate].
    inversion H; subst. constructor; [exact Ha | apply IH; reflexivity].
Qed.

(** The issues of the JSON decoder are, one by one and in order, what
    [_parseIssue] makes of the elements of the payload. *)
Lemma parseJsonOutput_elements cwd root v l :
  _parseJsonOutput cwd v root = Ok l ->
  Forall2 (fun e i => _parseIssue cwd e root = Ok i) (decodedElements v) l.
Proof.
  unfold _parseJsonOutput, decodedElements. intros H.
  destruct (nullish v) eqn:Hn;
    [destruct v; simpl in *; discriminate | ].
  rewrite !(get_getOpt v _ Hn) in H. simpl in H.
  destruct (Js.truthy (Js.getOpt v "severity")
            && Js.truthy (Js.getOpt v "code")).
  - destruct (_parseIssue cwd v root) as [i | ] eqn:E; simpl in H;
      [ | discriminate].
    inversion H; subst. constructor; [exact E | constructor].
  - destruct (Js.isArray v) eqn:Ha.
    + destruct v; simpl in Ha; try discriminate. simpl in H.
      apply mapM_Forall2 in H. exact H.
    + assert (Hv : match v with
                   | JArr l0 => l0
                   | _ => match Js.getOpt v "diagnostics" with
                          | JArr l0 => l0
                          | _ => []
                          end
                   end
                   = match Js.getOpt v "diagnostics" with
                     | JArr l0 => l0
                     | _ => []
                     end)
        by (destruct v; simpl in Ha; try discriminate; reflexivity).
      rewrite Hv.
      destruct (Js.truthy (Js.getOpt v "diagnostics")) eqn:Ht.
      * destruct (Js.getOpt v "diagnostics"); simpl in H; try discriminate.
        apply mapM_Forall2 in H. exact H.
      * inversion H; subst.
        destruct (Js.getOpt v "diagnostics"); simpl in Ht;
          try discriminate; constructor.
Qed.

(** Every issue of the JSON decoder is [_parseIssue] of an element. *)
Lemma parseJsonOutput_In cwd root v l i :
  _parseJsonOutput cwd v root = Ok l -> In i l ->
  exists e, _parseIssue cwd e root = Ok i.
Proof.
  intros H Hi. apply parseJsonOutput_elements in H.
  induction H as [|e i' es l He _ IH]; [destruct Hi | ].
  destruct Hi as [<- | Hi]; eauto.
Qed.



(** ** The fallback sequence *)

(** C4: when the JSON invocation resolves with an empty standard output and
    a non-empty standard error, the run neither calls [JSON.parse] nor
    enters the JSON decoder: it invokes the tool in text mode and decodes
    its report with the text decoder, and when that invocation fails it
    answers the diagnostics snapshot.  [_runFlutterAnalyze] and
    [_runDartAnalyze] are [runAnalyze] at [Flutter] and at [Dart]. *)
Theorem runAnalyze_stderr_only :
  forall cwd exec JSON_parse diagnostics workspaceFolders analyzer
         (workspaceRoot stderr : jsstring),
    stderr <> [] ->
    exec (jsonCommand analyzer) workspaceRoot = Resolved [] stderr ->
    let r := runAnalyze cwd exec JSON_parse diagnostics workspaceFolders
                        analyzer workspaceRoot in
    ~ In JsonParse (fst r) /\ ~ In DecodeJson (fst r) /\
    match exec (textCommand analyzer) workspaceRoot with
    | Resolved stdout _ =>
        r = ([Exec (jsonCommand analyzer); Exec (textCommand analyzer);
              DecodeText],
             map toRuntime (parseTextLines cwd workspaceRoot stdout))
    | Rejected =>
        r = ([Exec (jsonCommand analyzer); Exec (textCommand analyzer);
              DecodeSnapshot],
             map toRuntime
                 (_getDiagnosticsFromEditor cwd diagnostics workspaceFolders))
    end.
Proof.
  intros cwd exec JSON_parse diagnostics workspaceFolders analyzer
         workspaceRoot stderr Hne Hexec.
  cbv zeta. unfold runAnalyze. rewrite Hexec.
  apply eqb_neq in Hne. rewrite Hne. simpl.
  unfold _parseTextOutput, after, snapshot.
  destruct (exec (textCommand analyzer) workspaceRoot) as [stdout err | ];
    simpl; repeat split; try reflexivity;
    intros [H | [H | [H | []]]]; discriminate.
Qed.

(** A run against a tool that only writes to its error stream in JSON
    mode. *)
Lemma runAnalyze_stderr_only_witness :
  fst (_runFlutterAnalyze (js "/") stderrOnlyExec (fun _ => None) [] None
                          (js "/root"))
  = [Exec (js "flutter analyze --format=json"); Exec (js "flutter analyze");
     DecodeText] /\
  ~ In JsonParse
       (fst (_runFlutterAnalyze (js "/") stderrOnlyExec (fun _ => None) []
                                None (js "/root"))).
Proof.
  split; [reflexivity | ].
  apply (runAnalyze_stderr_only (js "/") stderrOnlyExec (fun _ => None) []
           None Flutter (js "/root") (js "unknown option")).
  - discriminate.
  - reflexivity.
Defined.

(** ** The re-entrancy guard *)

Lemma refresh_guarded s analyzer workspaceFolders :
  guarded s -> guarded (Panel.refresh s analyzer workspaceFolders).
Proof.
  intros H. unfold Panel.refresh.
  destruct (Panel._isAnalyzing s) eqn:E; [exact H | ].
  destruct H as [[Hf _] | (w & _ & Ha)]; [ | congruence].
  destruct workspaceFolders as [[|folder folders] | ]; unfold guarded; simpl;
    rewrite ?Hf; simpl; eauto.
Qed.

Lemma settle_guarded s run how : guarded s -> guarded (Panel.settle s run how).
Proof.
  intros H. unfold Panel.settle.
  destruct H as [[Hf Ha] | (w & Hf & Ha)]; rewrite Hf.
  - destruct run; simpl; left; auto.
  - destruct run as [|run]; simpl;
      [ | destruct run; simpl; right; eauto].
    destruct how, w; unfold guarded; simpl; rewrite ?Hf; simpl; eauto.
Qed.

Lemma run_guarded events : guarded (Panel.run events).
Proof.
  unfold Panel.run.
  assert (G : forall s, guarded s -> guarded (fold_left Panel.step events s)).
  { induction events as [|e events IH]; intros s Hs; simpl; [exact Hs | ].
    apply IH. destruct e; simpl;
      [apply refresh_guarded | apply settle_guarded]; exact Hs. }
  apply G. left. split; reflexivity.
Qed.

(** A second call of [refresh] while the first run waits for the tool
    changes nothing; once the run has returned, a call starts a new run. *)
Example refresh_twice :
  let folders := Some [js "/root"] in
  let first := Panel.run [Panel.Refresh Flutter folders] in
  Panel.inFlight first = [Panel.AwaitJsonExec]
  /\ Panel.invocations first = 1%nat
  /\ Panel.step first (Panel.Refresh Flutter folders) = first
  /\ Panel.invocations
       (Panel.run [Panel.Refresh Flutter folders;
                   Panel.Refresh Flutter folders;
                   Panel.Settle 0 Panel.StartsTextExec;
                   Panel.Refresh Dart folders;
                   Panel.Settle 0 (Panel.Returns []);
                   Panel.Refresh Flutter folders]) = 3%nat.
Proof. repeat split. Qed.

(** C5: in every state a panel can reach, at most one run is in flight, the
    flag [_isAnalyzing] is up exactly while a run is in flight, and a call
    of [refresh] while a run is in flight changes nothing: the results and
    the number of tool invocations stay as they are. *)
Theorem refresh_reentrancy_guard :
  forall (events : list Panel.Event) analyzer workspaceFolders,
    let s := Panel.run events in
    (List.length (Panel.inFlight s) <= 1)%nat /\
    (Panel._isAnalyzing s = true <-> Panel.inFlight s <> []) /\
    (Panel.inFlight s <> [] ->
     Panel.refresh s analyzer workspaceFolders = s /\
     Panel._analysisResults (Panel.step s (Panel.Refresh analyzer
                                             workspaceFolders))
     = Panel._analysisResults s /\
     Panel.invocations (Panel.step s (Panel.Refresh analyzer workspaceFolders))
     = Panel.invocations s).
Proof.
  intros events analyzer workspaceFolders. cbv zeta.
  pose proof (run_guarded events) as H.
  destruct H as [[Hf Ha] | (w & Hf & Ha)]; rewrite Hf.
  - simpl. split; [lia | ]. split; [ | congruence].
    rewrite Ha. split; [discriminate | congruence].
  - simpl. split; [lia | ]. split.
    + rewrite Ha. split; [discriminate | reflexivity].
    + intros _. unfold Panel.refresh. rewrite Ha. auto.
Qed.

(** ** Sorting *)

Section SortFacts.

Context {A : Type}.
Variable compare : A -> A -> Z.

Lemma insert_perm x l : Permutation (JsArray.insert compare x l) (x :: l).
Proof.
  induction l as [|y l IH]; simpl; [reflexivity | ].
  destruct (compare x y <=? 0); [reflexivity | ].
  rewrite IH. apply perm_swap.
Qed.

Lemma sort_perm l : Permutation (JsArray.sort compare l) l.
Proof.
  induction l as [|x l IH]; simpl; [reflexivity | ].
  rewrite insert_perm. apply perm_skip, IH.
Qed.

(** The comparator is consistent: it orders any two elements one way or
    the other, and transitively. *)
Hypothesis compare_total :
  forall a b, compare a b <= 0 \/ compare b a <= 0.
Hypothesis compare_trans :
  forall a b c, compare a b <= 0 -> compare b c <= 0 -> compare a c <= 0.

Lemma insert_sorted x l :
  StronglySorted (fun a b => compare a b <= 0) l ->
  StronglySorted (fun a b => compare a b <= 0) (JsArray.insert compare x l).
Proof.
  induction l as [|y l IH]; simpl; intros H.
  - constructor; constructor.
  - inversion H as [|? ? Hl Hy]; subst.
    destruct (compare x y <=? 0) eqn:E.
    + apply Z.leb_le in E. constructor; [exact H | ].
      constructor; [exact E | ].
      rewrite Forall_forall in Hy |- *. intros z Hz.
      eapply compare_trans; eauto.
    + apply Z.leb_gt in E. constructor; [apply IH, Hl | ].
      rewrite (insert_perm x l). constructor; [ | exact Hy].
      destruct (compare_total x y); [lia | assumption].
Qed.

Lemma sort_sorted l :
  StronglySorted (fun a b => compare a b <= 0) (JsArray.sort compare l).
Proof.
  induction l as [|x l IH]; simpl; [constructor | ].
  apply insert_sorted, IH.
Qed.

End SortFacts.

Lemma sort_by_line_sorted (l : list AnalysisIssue) :
  StronglySorted (fun a b => line a <= line b)
                 (JsArray.sort (fun a b => line a - line b) l).
Proof.
  assert (H : StronglySorted (fun a b : AnalysisIssue => line a - line b <= 0)
                (JsArray.sort (fun a b => line a - line b) l))
    by (apply sort_sorted; intros; lia).
  induction H as [|a l' Hs IH Ha]; constructor; auto.
  rewrite Forall_forall in Ha |- *. intros b Hb.
  specialize (Ha b Hb). simpl in Ha. lia.
Qed.

(** ** The map from files to issues *)

Section MapFacts.

Context {V : Type}.

Lemma get_set (m : JsMap.t V) k v k' :
  JsMap.get (JsMap.set m k v) k'
  = if eqb k k' then Some v else JsMap.get m k'.
Proof.
  induction m as [|[k0 v0] m IH]; simpl.
  - destruct (eqb k k'); reflexivity.
  - destruct (eqb k0 k) eqn:E0; simpl.
    + apply eqb_eq in E0. subst k0.
      destruct (eqb k k'); reflexivity.
    + destruct (eqb k0 k') eqn:E1; [ | exact IH].
      apply eqb_eq in E1. subst k'.
      destruct (eqb k k0) eqn:E2; [ | reflexivity].
      apply eqb_eq in E2. subst k. rewrite eqb_refl in E0. discriminate.
Qed.

Lemma get_In (m : JsMap.t V) k v : JsMap.get m k = Some v -> In (k, v) m.
Proof.
  induction m as [|[k0 v0] m IH]; simpl; [discriminate | ].
  destruct (eqb k0 k) eqn:E.
  - apply eqb_eq in E. intros H; inversion H; subst. auto.
  - auto.
Qed.

Lemma get_None (m : JsMap.t V) k :
  JsMap.get m k = None <-> ~ In k (map fst m).
Proof.
  induction m as [|[k0 v0] m IH]; simpl; [tauto | ].
  destruct (eqb k0 k) eqn:E.
  - apply eqb_eq in E. split; [discriminate | tauto].
  - apply eqb_neq in E. tauto.
Qed.

Lemma In_get (m : JsMap.t V) k v :
  NoDup (map fst m) -> In (k, v) m -> JsMap.get m k = Some v.
Proof.
  induction m as [|[k0 v0] m IH]; simpl; [tauto | ].
  intros Hnd [H | H].
  - inversion H; subst. rewrite eqb_refl. reflexivity.
  - inversion Hnd as [|? ? Hk Hnd']; subst.
    destruct (eqb k0 k) eqn:E; [ | auto].
    apply eqb_eq in E. subst k0. exfalso. apply Hk.
    apply (in_map fst) in H. exact H.
Qed.

Lemma set_keys (m : JsMap.t V) k v :
  map fst (JsMap.set m k v)
  = match JsMap.get m k with
    | Some _ => map fst m
    | None => map fst m ++ [k]
    end.
Proof.
  induction m as [|[k0 v0] m IH]; simpl; [reflexivity | ].
  destruct (eqb k0 k) eqn:E; simpl; [reflexivity | ].
  rewrite IH. destruct (JsMap.get m k); reflexivity.
Qed.

Lemma set_NoDup (m : JsMap.t V) k v :
  NoDup (map fst m) -> NoDup (map fst (JsMap.set m k v)).
Proof.
  intros H. rewrite set_keys.
  destruct (JsMap.get m k) eqn:E; [exact H | ].
  apply get_None in E. apply NoDup_app; auto.
  - repeat constructor. auto.
  - intros x Hx [<- | []]. contradiction.
Qed.

End MapFacts.

(** ** Grouping *)

Lemma filter_nil {A} (f : A -> bool) l :
  (forall x, In x l -> f x = false) -> filter f l = [].
Proof.
  induction l as [|x l IH]; simpl; intros H; [reflexivity | ].
  rewrite (H x) by auto. apply IH. auto.
Qed.

Lemma addIssue_groupsOf seen m x :
  groupsOf seen m -> groupsOf (seen ++ [x]) (addIssue m x).
Proof.
  intros [H1 H2]. unfold addIssue. split.
  - intros f fl. rewrite get_set, filter_app. simpl. unfold inFile at 2.
    destruct (eqb (file x) f) eqn:E.
    + apply eqb_eq in E. subst f. intros H. inversion H; subst; clear H.
      split; [ | intros C; apply app_eq_nil in C as [_ C]; discriminate].
      f_equal. destruct (JsMap.get m (file x)) as [l | ] eqn:G.
      * apply H1, G.
      * symmetry. apply filter_nil. intros i Hi.
        unfold inFile. apply eqb_neq. intros C.
        apply (H2 i Hi). rewrite C. exact G.
    + rewrite app_nil_r. apply H1.
  - intros i Hi. rewrite get_set.
    destruct (eqb (file x) (file i)) eqn:E; [discriminate | ].
    apply in_app_or in Hi as [Hi | [<- | []]]; [apply H2, Hi | ].
    rewrite eqb_refl in E. discriminate.
Qed.

Lemma issuesByFile_groupsOf issues :
  NoDup (map fst (issuesByFile issues))
  /\ groupsOf issues (issuesByFile issues).
Proof.
  unfold issuesByFile.
  assert (G : forall l seen m,
             NoDup (map fst m) -> groupsOf seen m ->
             NoDup (map fst (fold_left addIssue l m))
             /\ groupsOf (seen ++ l) (fold_left addIssue l m)).
  { induction l as [|x l IH]; intros seen m Hnd Hg; simpl.
    - rewrite app_nil_r. auto.
    - replace (seen ++ x :: l) with ((seen ++ [x]) ++ l)
        by (rewrite <- app_assoc; reflexivity).
      apply IH; [apply set_NoDup, Hnd | apply addIssue_groupsOf, Hg]. }
  apply (G issues [] []); [constructor | ].
  split; [discriminate | intros i []].
Qed.

Lemma filter_split {A} (f : A -> bool) l :
  Permutation l (filter f l ++ filter (fun x => negb (f x)) l).
Proof.
  induction l as [|x l IH]; simpl; [reflexivity | ].
  destruct (f x); simpl; [apply perm_skip, IH | ].
  apply Permutation_cons_app, IH.
Qed.

Lemma filter_other_file f k (l : list AnalysisIssue) :
  f <> k ->
  filter (inFile f) (filter (fun i => negb (inFile k i)) l)
  = filter (inFile f) l.
Proof.
  intros Hne. induction l as [|x l IH]; simpl; [reflexivity | ].
  destruct (inFile k x) eqn:Ek; simpl.
  - destruct (inFile f x) eqn:Ef; [ | exact IH].
    unfold inFile in *. apply eqb_eq in Ek, Ef. congruence.
  - rewrite IH. reflexivity.
Qed.

(** The values of a map that holds, under distinct keys, the issues of each
    file are together the issues. *)
Lemma groups_perm (m : JsMap.t (list AnalysisIssue)) :
  forall l,
    NoDup (map fst m) ->
    (forall f fl, In (f, fl) m -> fl = filter (inFile f) l) ->
    (forall i, In i l -> In (file i) (map fst m)) ->
    Permutation (flat_map snd m) l.
Proof.
  induction m as [|[k fl] m IH]; intros l Hnd Hv Hk; simpl.
  - destruct l as [|i l]; [reflexivity | ]. destruct (Hk i); simpl; auto.
  - inversion Hnd as [|? ? Hkm Hnd']; subst.
    apply Permutation_trans
      with (filter (inFile k) l ++ filter (fun x => negb (inFile k x)) l);
      [ | symmetry; apply filter_split].
    rewrite (Hv k fl) by (simpl; auto).
    apply Permutation_app_head. apply IH; [exact Hnd' | | ].
    + intros f fl' Hin. rewrite filter_other_file.
      * apply Hv. simpl; auto.
      * intros ->. apply Hkm. apply (in_map fst) in Hin. exact Hin.
    + intros i Hi. apply filter_In in Hi as [Hi Hf].
      destruct (Hk i Hi) as [E | Hin]; [ | exact Hin].
      simpl in E. unfold inFile in Hf. rewrite <- E, eqb_refl in Hf.
      discriminate.
Qed.

Lemma issuesByFile_perm issues :
  Permutation (flat_map snd (issuesByFile issues)) issues.
Proof.
  destruct (issuesByFile_groupsOf issues) as (Hnd & H1 & H2).
  apply groups_perm; [exact Hnd | | ].
  - intros f fl Hin. apply H1, In_get; assumption.
  - intros i Hi. specialize (H2 i Hi).
    destruct (in_dec (list_eq_dec N.eq_dec) (file i)
                     (map fst (issuesByFile issues))) as [Hin | Hout];
      [exact Hin | ].
    apply get_None in Hout. contradiction.
Qed.

Section WebviewFacts.

Variable localeCompare : jsstring -> jsstring -> Z.

Lemma fileGroups_perm issues :
  Permutation (fileGroups localeCompare issues) (sortedEntries issues).
Proof. apply sort_perm. Qed.

(** A group holds the issues of its file, ordered by the stable sort. *)
Lemma fileGroups_In issues g :
  In g (fileGroups localeCompare issues) ->
  snd g = JsArray.sort (fun a b => line a - line b)
                       (filter (inFile (fst g)) issues)
  /\ filter (inFile (fst g)) issues <> [].
Proof.
  intros H. apply (Permutation_in _ (fileGroups_perm issues)) in H.
  apply in_map_iff in H as ([f fl] & <- & Hin). simpl.
  destruct (issuesByFile_groupsOf issues) as (Hnd & H1 & _).
  destruct (H1 f fl (In_get _ _ _ Hnd Hin)) as [-> Hne]. auto.
Qed.

Lemma fileGroups_keys issues :
  map fst (sortedEntries issues) = map fst (issuesByFile issues).
Proof.
  unfold sortedEntries. rewrite map_map. apply map_ext.
  intros [f fl]. reflexivity.
Qed.

Lemma fileGroups_NoDup issues :
  NoDup (map fst (fileGroups localeCompare issues)).
Proof.
  apply (Permutation_NoDup
           (l := map fst (sortedEntries issues))).
  - symmetry. apply Permutation_map, fileGroups_perm.
  - rewrite fileGroups_keys. apply issuesByFile_groupsOf.
Qed.

Lemma sortedEntries_perm issues :
  Permutation (flat_map snd (sortedEntries issues))
              (flat_map snd (issuesByFile issues)).
Proof.
  unfold sortedEntries.
  induction (issuesByFile issues) as [|[f fl] m IH]; simpl; [reflexivity | ].
  apply Permutation_app; [apply sort_perm | exact IH].
Qed.

Lemma fileGroups_flat_perm issues :
  Permutation (flat_map snd (fileGroups localeCompare issues)) issues.
Proof.
  rewrite (Permutation_flat_map snd (fileGroups_perm issues)).
  rewrite sortedEntries_perm. apply issuesByFile_perm.
Qed.

Lemma fileGroups_files issues f :
  In f (map fst (fileGroups localeCompare issues))
  <-> In f (map file issues).
Proof.
  split.
  - intros H. apply in_map_iff in H as (g & <- & Hg).
    destruct (fileGroups_In issues g Hg) as [_ Hne].
    destruct (filter (inFile (fst g)) issues) as [|i l] eqn:E;
      [congruence | ].
    assert (Hi : In i (filter (inFile (fst g)) issues))
      by (rewrite E; simpl; auto).
    apply filter_In in Hi as [Hi Hf]. unfold inFile in Hf.
    apply eqb_eq in Hf. rewrite <- Hf. apply in_map, Hi.
  - intros H. apply in_map_iff in H as (i & <- & Hi).
    apply (Permutation_in _ (Permutation_map fst
             (Permutation_sym (fileGroups_perm issues)))).
    rewrite fileGroups_keys.
    destruct (issuesByFile_groupsOf issues) as (_ & _ & H2).
    specialize (H2 i Hi).
    destruct (in_dec (list_eq_dec N.eq_dec) (file i)
                     (map fst (issuesByFile issues))) as [Hin | Hout];
      [exact Hin | ].
    apply get_None in Hout. contradiction.
Qed.

End WebviewFacts.

Lemma summary_total (issues : list AnalysisIssue) :
  (List.length (errors issues) + List.length (warnings issues)
   + (List.length (infos issues) + List.length (hints issues))
   = List.length issues)%nat.
Proof.
  unfold errors, warnings, infos, hints, hasSeverity.
  induction issues as [|i issues IH]; simpl; [reflexivity | ].
  destruct (severity i); simpl; lia.
Qed.

(** Each filter of the summary keeps the issues of its severity, as many
    as the list has. *)
Lemma filter_countSeverity (s : Severity) (issues : list AnalysisIssue) :
  List.length (filter (hasSeverity s) issues) = countSeverity s issues.
Proof.
  unfold countSeverity, hasSeverity.
  induction issues as [|i issues IH]; simpl; [reflexivity | ].
  destruct (Severity_eq_dec (severity i) s) as [E | E].
  - rewrite E. destruct s; simpl; rewrite IH; reflexivity.
  - destruct (severity i), s; simpl; try congruence; exact IH.
Qed.

(** C10: the groups partition the issues.  The files of the groups are
    distinct; each group holds exactly the issues of the list whose [file]
    is the group's, as often as the list has them, and is not empty; the
    groups together are a rearrangement of the list; the group sizes add up
    to the size of the list.  The three numbers of the summary bar are the
    number of issues whose severity is error, the number of those whose
    severity is warning, and the number of those whose severity is info
    plus the number of those whose severity is hint; they add up to the
    size of the list. *)
Theorem fileGroups_partition :
  forall (localeCompare : jsstring -> jsstring -> Z)
         (issues : list AnalysisIssue),
    let groups := fileGroups localeCompare issues in
    NoDup (map fst groups) /\
    (forall i, In i issues ->
       exists g, In g groups /\ fst g = file i /\ In i (snd g)) /\
    (forall g, In g groups ->
       snd g <> [] /\
       Forall (fun i => file i = fst g) (snd g) /\
       Permutation (snd g) (filter (inFile (fst g)) issues)) /\
    Permutation (flat_map snd groups) issues /\
    list_sum (map (fun g => List.length (snd g)) groups) = List.length issues /\
    (let '(e, w, ih) := summary issues in
     e = countSeverity SevError issues /\
     w = countSeverity SevWarning issues /\
     ih = (countSeverity SevInfo issues + countSeverity SevHint issues)%nat /\
     (e + w + ih)%nat = List.length issues).
Proof.
  intros localeCompare issues. cbv zeta.
  assert (Hg : forall g, In g (fileGroups localeCompare issues) ->
                 snd g <> [] /\
                 Forall (fun i => file i = fst g) (snd g) /\
                 Permutation (snd g) (filter (inFile (fst g)) issues)).
  { intros g Hin. destruct (fileGroups_In localeCompare issues g Hin)
      as [Hs Hne].
    assert (Hp : Permutation (snd g) (filter (inFile (fst g)) issues))
      by (rewrite Hs; apply sort_perm).
    split; [ | split; [ | exact Hp]].
    - intros C. rewrite C in Hp. apply Permutation_nil in Hp. auto.
    - apply Forall_forall. intros i Hi.
      apply (Permutation_in _ Hp) in Hi. apply filter_In in Hi as [_ Hf].
      apply eqb_eq in Hf. exact Hf. }
  split; [apply fileGroups_NoDup | ].
  split.
  { intros i Hi.
    assert (Hf : In (file i) (map fst (fileGroups localeCompare issues)))
      by (apply fileGroups_files, in_map, Hi).
    apply in_map_iff in Hf as (g & Hfg & Hin).
    exists g. split; [exact Hin | ]. split; [exact Hfg | ].
    destruct (Hg g Hin) as (_ & _ & Hp).
    apply (Permutation_in _ (Permutation_sym Hp)).
    apply filter_In. split; [exact Hi | ].
    unfold inFile. rewrite Hfg. apply eqb_refl. }
  split; [exact Hg | ].
  split; [apply fileGroups_flat_perm | ].
  split.
  { rewrite <- (Permutation_length
                  (fileGroups_flat_perm localeCompare issues)).
    rewrite length_flat_map. reflexivity. }
  unfold summary, errors, warnings, infos, hints.
  rewrite <- !filter_countSeverity.
  split; [reflexivity | ]. split; [reflexivity | ]. split; [reflexivity | ].
  apply summary_total.
Qed.

(** ** The order of the groups *)

Lemma unitCompare_antisym a b : unitCompare a b < 0 <-> 0 < unitCompare b a.
Proof.
  revert b. induction a as [|x a IH]; intros [|y b]; simpl; try lia.
  destruct (N.ltb_spec x y); destruct (N.ltb_spec y x); try lia.
  apply IH.
Qed.

Lemma unitCompare_trans a b c :
  unitCompare a b <= 0 -> unitCompare b c <= 0 -> unitCompare a c <= 0.
Proof.
  revert b c. induction a as [|x a IH]; intros [|y b] [|z c]; simpl; try lia.
  destruct (N.ltb_spec x y); destruct (N.ltb_spec y x);
    destruct (N.ltb_spec y z); destruct (N.ltb_spec z y);
    destruct (N.ltb_spec x z); destruct (N.ltb_spec z x); try lia.
  apply IH.
Qed.

Lemma Permutation_three {A} (x y z : A) l :
  Permutation l [x; y; z] ->
  In l [[x; y; z]; [x; z; y]; [y; x; z]; [y; z; x]; [z; x; y]; [z; y; x]].
Proof.
  intros H. pose proof (Permutation_length H) as Hlen.
  destruct l as [|p [|q [|r [|s l]]]]; try discriminate.
  assert (Hp : In p [x; y; z]) by (apply (Permutation_in _ H); simpl; auto).
  destruct Hp as [<- | [<- | [<- | []]]].
  - apply Permutation_cons_inv in H.
    apply Permutation_length_2_inv in H as [E | E]; inversion E; subst;
      simpl; auto.
  - apply (Permutation_cons_app_inv [x] [z]) in H. simpl in H.
    apply Permutation_length_2_inv in H as [E | E]; inversion E; subst;
      simpl; auto.
  - apply (Permutation_cons_app_inv [x; y] []) in H. simpl in H.
    apply Permutation_length_2_inv in H as [E | E]; inversion E; subst;
      simpl; auto 7.
Qed.

(** C9: for a locale whose comparison is consistent, the groups carry
    distinct files, one for each file of the list; they are ordered by
    [localeCompare] on their files, and the issues of each are in ascending
    order of line.  When the locale puts [a.dart] before [b.dart], the
    issues [b.dart] line 5, [a.dart] line 1 and [a.dart] line 3, in any
    order, give the group of [a.dart] with line 1 before line 3, followed
    by the group of [b.dart]. *)
Theorem fileGroups_sorted :
  forall localeCompare : jsstring -> jsstring -> Z,
    (forall a b, localeCompare a b < 0 <-> 0 < localeCompare b a) ->
    (forall a b c,
        localeCompare a b <= 0 -> localeCompare b c <= 0 ->
        localeCompare a c <= 0) ->
    forall issues : list AnalysisIssue,
      let groups := fileGroups localeCompare issues in
      NoDup (map fst groups) /\
      (forall f, In f (map fst groups) <-> In f (map file issues)) /\
      StronglySorted (fun g h => localeCompare (fst g) (fst h) <= 0) groups /\
      Forall (fun g => StronglySorted (fun a b => line a <= line b) (snd g))
             groups /\
      (localeCompare (js "a.dart") (js "b.dart") < 0 ->
       Permutation issues [issueAt (js "b.dart") 5;
                           issueAt (js "a.dart") 1;
                           issueAt (js "a.dart") 3] ->
       groups = [(js "a.dart",
                  [issueAt (js "a.dart") 1; issueAt (js "a.dart") 3]);
                 (js "b.dart", [issueAt (js "b.dart") 5])]).
Proof.
  intros localeCompare Hanti Htrans issues. cbv zeta.
  assert (Htotal : forall a b,
             localeCompare a b <= 0 \/ localeCompare b a <= 0).
  { intros a b. destruct (Z_le_gt_dec (localeCompare a b) 0) as [H | H];
      [left; exact H | right].
    assert (localeCompare b a < 0) by (apply Hanti; lia). lia. }
  split; [apply fileGroups_NoDup | ].
  split; [apply fileGroups_files | ].
  split.
  { unfold fileGroups.
    apply (sort_sorted (fun a b : jsstring * list AnalysisIssue =>
                          localeCompare (fst a) (fst b))).
    - intros a b. apply Htotal.
    - intros a b c. apply Htrans. }
  split.
  { apply Forall_forall. intros g Hg.
    destruct (fileGroups_In localeCompare issues g Hg) as [E _].
    exact (eq_ind_r
             (fun l => StronglySorted
                         (fun a b : AnalysisIssue => line a <= line b) l)
             (sort_by_line_sorted _) E). }
  intros Hab Hperm.
  assert (Tab : (localeCompare (js "a.dart") (js "b.dart") <=? 0) = true)
    by (apply Z.leb_le; lia).
  assert (Tba : (localeCompare (js "b.dart") (js "a.dart") <=? 0) = false).
  { apply Z.leb_gt. apply Hanti. exact Hab. }
  apply Permutation_three in Hperm.
  cbv -[Z.leb] in Tab, Tba.
  repeat (destruct Hperm as [<- | Hperm];
          [cbv -[Z.leb]; rewrite ?Tab, ?Tba; reflexivity | ]).
  destruct Hperm.
Qed.

(** The example under the comparison by code units. *)
Lemma fileGroups_sorted_witness :
  fileGroups unitCompare [issueAt (js "b.dart") 5; issueAt (js "a.dart") 3;
                          issueAt (js "a.dart") 1]
  = [(js "a.dart", [issueAt (js "a.dart") 1; issueAt (js "a.dart") 3]);
     (js "b.dart", [issueAt (js "b.dart") 5])].
Proof.
  apply (fileGroups_sorted unitCompare unitCompare_antisym unitCompare_trans).
  - vm_compute. reflexivity.
  - apply perm_skip, perm_swap.
Defined.

(** * Further properties *)

(** ** Escaping *)

Lemma escapeUnit_cases c :
  (special c = false /\ escapeUnit c = [c])
  \/ (c = 38%N /\ escapeUnit c = js "&amp;")
  \/ (c = 60%N /\ escapeUnit c = js "&lt;")
  \/ (c = 62%N /\ escapeUnit c = js "&gt;")
  \/ (c = 34%N /\ escapeUnit c = js "&quot;")
  \/ (c = 39%N /\ escapeUnit c = js "&#039;").
Proof.
  unfold escapeUnit, special.
  destruct (N.eqb_spec c 38) as [-> | H1]; [right; left; split; reflexivity | ].
  destruct (N.eqb_spec c 60) as [-> | H2];
    [right; right; left; split; reflexivity | ].
  destruct (N.eqb_spec c 62) as [-> | H3];
    [right; right; right; left; split; reflexivity | ].
  destruct (N.eqb_spec c 34) as [-> | H4];
    [right; right; right; right; left; split; reflexivity | ].
  destruct (N.eqb_spec c 39) as [-> | H5];
    [right; right; right; right; right; split; reflexivity | ].
  left. auto.
Qed.

(** X1: what [_escapeHtml] returns is made of code units that need no
    escaping and of the five entities; in particular it holds no [<], [>],
    double quote or single quote. *)
Theorem escapeHtml_escaped :
  forall text : jsstring,
    Escaped (_escapeHtml text) /\
    Forall (fun c => c <> 60%N /\ c <> 62%N /\ c <> 34%N /\ c <> 39%N)
           (_escapeHtml text).
Proof.
  intros text. unfold _escapeHtml.
  induction text as [|c text [IH1 IH2]]; simpl;
    [split; constructor | ].
  destruct (escapeUnit_cases c)
    as [[Hs ->] | [[-> ->] | [[-> ->] | [[-> ->] | [[-> ->] | [-> ->]]]]]].
  - split; [constructor; assumption | ].
    constructor; [ | exact IH2]. unfold special in Hs.
    repeat split; intros ->; discriminate.
  - split; [apply Escaped_amp, IH1 | ].
    apply Forall_app. split; [ | exact IH2].
    repeat constructor; discriminate.
  - split; [apply Escaped_lt, IH1 | ].
    apply Forall_app. split; [ | exact IH2].
    repeat constructor; discriminate.
  - split; [apply Escaped_gt, IH1 | ].
    apply Forall_app. split; [ | exact IH2].
    repeat constructor; discriminate.
  - split; [apply Escaped_quot, IH1 | ].
    apply Forall_app. split; [ | exact IH2].
    repeat constructor; discriminate.
  - split; [apply Escaped_apos, IH1 | ].
    apply Forall_app. split; [ | exact IH2].
    repeat constructor; discriminate.
Qed.

Lemma unescapeFrom_unit c s :
  unescapeFrom 0 (escapeUnit c ++ s) = c :: unescapeFrom 0 s.
Proof.
  destruct (escapeUnit_cases c)
    as [[Hs ->] | [[-> ->] | [[-> ->] | [[-> ->] | [[-> ->] | [-> ->]]]]]].
  - unfold special in Hs. apply orb_false_iff in Hs as [Hs _].
    repeat (apply orb_false_iff in Hs as [Hs _]).
    cbn [app unescapeFrom]. cbn [js map list_ascii_of_string N_of_ascii].
    unfold startsWith; fold startsWith.
    simpl. rewrite Hs. reflexivity.
  - change (js "&amp;" ++ s) with (38%N :: js "amp;" ++ s).
    cbn [unescapeFrom]. change (38%N :: js "amp;" ++ s) with (js "&amp;" ++ s).
    rewrite startsWith_app.
    cbv iota. reflexivity.
  - change (js "&lt;" ++ s) with (38%N :: js "lt;" ++ s).
    cbn [unescapeFrom].
    change (startsWith (38%N :: js "lt;" ++ s) (js "&amp;")) with false.
    change (38%N :: js "lt;" ++ s) with (js "&lt;" ++ s).
    rewrite startsWith_app.
    cbv iota. reflexivity.
  - change (js "&gt;" ++ s) with (38%N :: js "gt;" ++ s).
    cbn [unescapeFrom].
    change (startsWith (38%N :: js "gt;" ++ s) (js "&amp;")) with false.
    change (startsWith (38%N :: js "gt;" ++ s) (js "&lt;")) with false.
    change (38%N :: js "gt;" ++ s) with (js "&gt;" ++ s).
    rewrite startsWith_app.
    cbv iota. reflexivity.
  - change (js "&quot;" ++ s) with (38%N :: js "quot;" ++ s).
    cbn [unescapeFrom].
    change (startsWith (38%N :: js "quot;" ++ s) (js "&amp;")) with false.
    change (startsWith (38%N :: js "quot;" ++ s) (js "&lt;")) with false.
    change (startsWith (38%N :: js "quot;" ++ s) (js "&gt;")) with false.
    change (38%N :: js "quot;" ++ s) with (js "&quot;" ++ s).
    rewrite startsWith_app.
    cbv iota. reflexivity.
  - change (js "&#039;" ++ s) with (38%N :: js "#039;" ++ s).
    cbn [unescapeFrom].
    change (startsWith (38%N :: js "#039;" ++ s) (js "&amp;")) with false.
    change (startsWith (38%N :: js "#039;" ++ s) (js "&lt;")) with false.
    change (startsWith (38%N :: js "#039;" ++ s) (js "&gt;")) with false.
    change (startsWith (38%N :: js "#039;" ++ s) (js "&quot;")) with false.
    change (38%N :: js "#039;" ++ s) with (js "&#039;" ++ s).
    rewrite startsWith_app.
    cbv iota. reflexivity.
Qed.

(** X2: reading the five entities back gives the text that was escaped, so
    two texts with the same escaped form are the same text. *)
Theorem escapeHtml_round_trip :
  forall text : jsstring,
    unescapeHtml (_escapeHtml text) = text /\
    (forall other, _escapeHtml other = _escapeHtml text -> other = text).
Proof.
  assert (R : forall t, unescapeHtml (_escapeHtml t) = t).
  { unfold unescapeHtml, _escapeHtml.
    induction t as [|c t IH]; simpl; [reflexivity | ].
    rewrite unescapeFrom_unit, IH. reflexivity. }
  intros text. split; [apply R | ].
  intros other H. rewrite <- (R other), H. apply R.
Qed.

(** X3: a text comes back unchanged exactly when it holds none of the five
    characters; escaping never shortens a text, and the escaped form of a
    concatenation is the concatenation of the escaped forms. *)
Theorem escapeHtml_plain_text :
  forall text other : jsstring,
    (_escapeHtml text = text
     <-> forallb (fun c => negb (special c)) text = true)
    /\ (List.length text <= List.length (_escapeHtml text))%nat
    /\ _escapeHtml (text ++ other) = _escapeHtml text ++ _escapeHtml other.
Proof.
  intros text other.
  assert (L : forall t, (List.length t <= List.length (_escapeHtml t))%nat).
  { unfold _escapeHtml. induction t as [|c t IH]; simpl; [lia | ].
    rewrite length_app.
    destruct (escapeUnit_cases c)
      as [[_ ->] | [[_ ->] | [[_ ->] | [[_ ->] | [[_ ->] | [_ ->]]]]]];
      simpl; lia. }
  split; [ | split; [apply L | apply flat_map_app]].
  unfold _escapeHtml. induction text as [|c text IH]; simpl; [tauto | ].
  destruct (escapeUnit_cases c)
    as [[Hs ->] | [[-> ->] | [[-> ->] | [[-> ->] | [[-> ->] | [-> ->]]]]]].
  - rewrite Hs. simpl. split.
    + intros H. inversion H as [H']. rewrite H'. apply IH, H'.
    + intros H. f_equal. apply IH, H.
  - simpl. split; [intros H | discriminate]. exfalso.
    apply (f_equal (@List.length N)) in H. simpl in H.
    pose proof (L text). unfold _escapeHtml in *. lia.
  - simpl. split; [intros H; inversion H | discriminate].
  - simpl. split; [intros H; inversion H | discriminate].
  - simpl. split; [intros H; inversion H | discriminate].
  - simpl. split; [intros H; inversion H | discriminate].
Qed.

(** ** Reports, block by block *)

(** X4: a line starts an issue only when it reads: one of the four words,
    white space, a bullet, white space, a message, white space, a bullet,
    white space, a path, a colon, digits, a colon, digits, and whatever
    follows; the captures are the word, the message, the path and the two
    runs of digits, and the severity of the issue is the one the word
    names. *)
Theorem issueStart_sound :
  forall (cwd root ln : jsstring) (g : Regex.Groups),
    Regex.issueStart ln = Some g ->
    (exists w1 w2 w3 w4 rest,
        ln = Regex.g1 g ++ w1 ++ bullet :: w2 ++ Regex.g2 g ++ w3
               ++ bullet :: w4 ++ Regex.g3 g ++ js ":" ++ Regex.g4 g
               ++ js ":" ++ Regex.g5 g ++ rest
        /\ whitespace w1 /\ whitespace w2 /\ whitespace w3 /\ whitespace w4
        /\ oneLine (Regex.g2 g) /\ oneLine (Regex.g3 g)
        /\ digits (Regex.g4 g) /\ digits (Regex.g5 g))
    /\ Regex.g1 g = severityWord (severity (startIssue cwd root g)).
Proof.
  intros cwd root ln g H.
  destruct (issueStart_reads ln g H)
    as (w1 & w2 & w3 & w4 & rest & E & Hw & H1 & H2 & H3 & H4 & H5 & H6
        & H7 & H8).
  split.
  - exists w1, w2, w3, w4, rest. tauto.
  - simpl. destruct Hw as [<- | [<- | [<- | [<- | []]]]]; reflexivity.
Qed.

Lemma issueStart_sound_witness :
  Regex.g1 (Regex.mkGroups (js "warning") (js "m") (js "f") (js "1") (js "2"))
  = severityWord SevWarning.
Proof.
  apply (issueStart_sound (js "/") (js "/")
           (js "warning " ++ bullet :: js " m " ++ bullet :: js " f:1:2")
           (Regex.mkGroups (js "warning") (js "m") (js "f") (js "1")
                           (js "2"))).
  vm_compute. reflexivity.
Defined.

(** X5: the text decoder works block by block.  Its issues are, in order,
    the issues of the blocks of the report: each line that starts an issue
    gives one issue, whose message is the message of that line followed,
    after one space each, by the trimmed texts of the lines up to the next
    start that are not blank; the lines before the first start give
    nothing. *)
Theorem parseTextLines_blocks :
  forall cwd root stdout : jsstring,
    parseTextLines cwd root stdout
    = map (issueOfBlock cwd root) (snd (blocksFrom (split 10 stdout))).
Proof. exact parseTextLines_by_blocks. Qed.

Lemma blocksFrom_length lines :
  List.length (snd (blocksFrom lines))
  = List.length (filter startsIssue lines).
Proof.
  induction lines as [|l lines IH]; simpl; [reflexivity | ].
  destruct (blocksFrom lines) as [lead blocks]. unfold startsIssue at 1.
  destruct (Regex.issueStart l); simpl in *; congruence.
Qed.

(** X6: the decoder returns as many issues as the report has lines that
    start an issue; a report without such a line, the empty report
    included, gives no issue. *)
Theorem parseTextLines_count :
  forall cwd root stdout : jsstring,
    List.length (parseTextLines cwd root stdout)
    = List.length (filter startsIssue (split 10 stdout))
    /\ (forallb (fun l => negb (startsIssue l)) (split 10 stdout) = true ->
        parseTextLines cwd root stdout = [])
    /\ parseTextLines cwd root [] = [].
Proof.
  intros cwd root stdout.
  assert (L : List.length (parseTextLines cwd root stdout)
              = List.length (filter startsIssue (split 10 stdout))).
  { unfold parseTextLines.
    pose proof (textLines_blocks cwd root (split 10 stdout) [] None) as H.
    simpl in H. rewrite H, length_map. apply blocksFrom_length. }
  split; [exact L | ]. split; [ | reflexivity].
  intros H.
  assert (F : filter startsIssue (split 10 stdout) = []).
  { apply filter_nil. intros l Hl. rewrite forallb_forall in H.
    apply negb_true_iff, H, Hl. }
  rewrite F in L.
  destruct (parseTextLines cwd root stdout); [reflexivity | discriminate].
Qed.

Lemma blocksFrom_app la lb :
  fst (blocksFrom lb) = [] ->
  snd (blocksFrom (la ++ lb)) = snd (blocksFrom la) ++ snd (blocksFrom lb)
  /\ fst (blocksFrom (la ++ lb)) = fst (blocksFrom la).
Proof.
  intros Hb. induction la as [|l la [IH1 IH2]]; simpl.
  - auto.
  - destruct (blocksFrom (la ++ lb)) as [lead blocks].
    destruct (blocksFrom la) as [lead' blocks']. simpl in *. subst.
    destruct (Regex.issueStart l); simpl; auto.
Qed.

Lemma blocksFrom_no_start la lb :
  forallb (fun l => negb (startsIssue l)) la = true ->
  snd (blocksFrom (la ++ lb)) = snd (blocksFrom lb).
Proof.
  induction la as [|l la IH]; simpl; intros H; [reflexivity | ].
  apply andb_true_iff in H as [Hl H]. specialize (IH H).
  destruct (blocksFrom (la ++ lb)) as [lead blocks].
  unfold startsIssue in Hl. destruct (Regex.issueStart l); [discriminate | ].
  exact IH.
Qed.

(** X7: two reports put one after the other, the second starting with a
    line that starts an issue, decode to the issues of the first followed
    by the issues of the second. *)
Theorem parseTextLines_app :
  forall cwd root first second : jsstring,
    startsIssue (hd [] (split 10 second)) = true ->
    parseTextLines cwd root (first ++ 10%N :: second)
    = parseTextLines cwd root first ++ parseTextLines cwd root second.
Proof.
  intros cwd root first second H.
  rewrite !parseTextLines_by_blocks, split_app_sep, <- map_app. f_equal.
  apply blocksFrom_app.
  pose proof (split_nonempty 10 second) as Hne.
  destruct (split 10 second) as [|l ls]; [congruence | ].
  simpl in *. destruct (blocksFrom ls). unfold startsIssue in H.
  destruct (Regex.issueStart l); [reflexivity | discriminate].
Qed.

Lemma parseTextLines_app_witness :
  parseTextLines (js "/") (js "/") (zeroPositionReport ++ 10%N :: exampleReport)
  = parseTextLines (js "/") (js "/") zeroPositionReport
      ++ parseTextLines (js "/") (js "/") exampleReport.
Proof.
  apply (parseTextLines_app (js "/") (js "/") zeroPositionReport
                            exampleReport).
  vm_compute. reflexivity.
Defined.

(** X8: whatever stands before the first line that starts an issue is
    dropped: lines of which none starts an issue, put before a report, do
    not change what it decodes to. *)
Theorem parseTextLines_preamble :
  forall cwd root preamble report : jsstring,
    forallb (fun l => negb (startsIssue l)) (split 10 preamble) = true ->
    parseTextLines cwd root (preamble ++ 10%N :: report)
    = parseTextLines cwd root report.
Proof.
  intros cwd root preamble report H.
  rewrite !parseTextLines_by_blocks, split_app_sep. f_equal.
  apply blocksFrom_no_start, H.
Qed.

Lemma parseTextLines_preamble_witness :
  parseTextLines (js "/") (js "/")
                 (js "Analyzing app..." ++ 10%N :: exampleReport)
  = parseTextLines (js "/") (js "/") exampleReport.
Proof.
  apply (parseTextLines_preamble (js "/") (js "/") (js "Analyzing app...")
                                 exampleReport).
  vm_compute. reflexivity.
Defined.

(** X9: every issue of the text decoder carries the code [analyzer] and a
    file that is not absolute, whatever path the report gives; and its
    severity, code, file, line and column are those of the line that
    started it: continuation lines only ever lengthen the message. *)
Theorem parseTextLines_fields :
  forall (cwd root stdout : jsstring) (i : TextIssue),
    In i (parseTextLines cwd root stdout) ->
    code i = js "analyzer" /\
    Path.isAbsolute (file i) = false /\
    exists g texts,
      In g (map fst (snd (blocksFrom (split 10 stdout)))) /\
      severity i = _mapSeverity (Regex.g1 g) /\
      file i = Path.relative cwd root (Regex.g3 g) /\
      line i = parseInt (Regex.g4 g) /\
      column i = parseInt (Regex.g5 g) /\
      message i
      = fold_left (fun m t => m ++ js " " ++ t) texts (trim (Regex.g2 g)).
Proof.
  intros cwd root stdout i H. rewrite parseTextLines_by_blocks in H.
  apply in_map_iff in H as ([g conts] & <- & Hin).
  unfold issueOfBlock. cbn [fst snd].
  destruct (fold_appendMessage_keeps (continuations conts)
              (startIssue cwd root g)) as (Hs & Hc & Hf & Hl & Hcol).
  cbv zeta in *. rewrite Hc, Hf. simpl.
  split; [reflexivity | ]. split; [apply relative_not_absolute | ].
  exists g, (continuations conts).
  split; [apply (in_map fst) in Hin; exact Hin | ].
  rewrite Hs, Hl, Hcol. simpl. repeat split; try reflexivity.
  assert (M : forall texts c,
             message (fold_left appendMessage texts c)
             = fold_left (fun m t => m ++ js " " ++ t) texts (message c)).
  { induction texts as [|t texts IH]; intros c; simpl; [reflexivity | ].
    rewrite IH. reflexivity. }
  rewrite M. reflexivity.
Qed.

Lemma parseTextLines_fields_witness :
  code (startIssue (js "/") (js "/")
          (Regex.mkGroups (js "warning") (js "m") (js "a.dart") (js "0")
                          (js "1")))
  = js "analyzer".
Proof.
  apply (parseTextLines_fields (js "/") (js "/")
           (js "warning " ++ bullet :: js " m " ++ bullet :: js " a.dart:0:1")
           (startIssue (js "/") (js "/")
              (Regex.mkGroups (js "warning") (js "m") (js "a.dart") (js "0")
                              (js "1")))).
  vm_compute. left. reflexivity.
Defined.

(** ** The JSON decoder, element by element *)

Lemma mapM_app {A B} (f : A -> result B) (a b : list A) :
  mapM f (a ++ b)
  = match mapM f a, mapM f b with
    | Ok x, Ok y => Ok (x ++ y)
    | _, _ => TypeError
    end.
Proof.
  induction a as [|x a IH]; simpl.
  - destruct (mapM f b); reflexivity.
  - destruct (f x) as [y | ]; simpl; [ | reflexivity].
    rewrite IH. destruct (mapM f a); simpl; [ | reflexivity].
    destruct (mapM f b); reflexivity.
Qed.

(** X10: an array is decoded element by element, in order: the issues of
    two arrays put together are the issues of the first followed by the
    issues of the second, and the decoder throws on the whole as soon as it
    throws on one part; no partial list is returned. *)
Theorem parseJsonOutput_array_app :
  forall (cwd root : jsstring) (first second : list JsVal),
    _parseJsonOutput cwd (JArr (first ++ second)) root
    = match _parseJsonOutput cwd (JArr first) root,
            _parseJsonOutput cwd (JArr second) root with
      | Ok x, Ok y => Ok (x ++ y)
      | _, _ => TypeError
      end.
Proof.
  intros cwd root first second. unfold _parseJsonOutput. simpl.
  apply mapM_app.
Qed.

Lemma parseIssue_fields cwd root e i :
  _parseIssue cwd e root = Ok i ->
  exists sev f,
    severity i = _mapSeverity sev /\
    file i = relativeFile cwd root f /\
    code i = Js.or (Js.or (Js.getOpt e "code") (Js.getOpt e "errorCode"))
                   (JStr (js "unknown")) /\
    message i = Js.or (Js.or (Js.getOpt e "message")
                             (Js.getOpt e "problemMessage"))
                      (JStr []).
Proof.
  unfold _parseIssue. intros H.
  destruct (nullish e) eqn:Hn;
    [destruct e; simpl in *; discriminate | ].
  rewrite !(get_getOpt e _ Hn) in H. simpl in H.
  destruct (Js.asString _) as [sev | ]; simpl in H; [ | discriminate].
  destruct (Js.asString _) as [f | ]; simpl in H; [ | discriminate].
  inversion H; subst; simpl. exists sev, f. repeat split; reflexivity.
Qed.

Lemma or_default_truthy a d :
  Js.truthy d = true -> Js.truthy (Js.or a d) = true.
Proof. unfold Js.or. destruct (Js.truthy a) eqn:E; auto. Qed.

Lemma or_empty a :
  Js.or a (JStr []) = JStr [] \/ Js.truthy (Js.or a (JStr [])) = true.
Proof. unfold Js.or. destruct (Js.truthy a) eqn:E; auto. Qed.

Lemma relativeFile_outside cwd root f :
  Path.isAbsolute root = true ->
  startsWith (relativeFile cwd root f) root = false.
Proof.
  intros Habs. unfold relativeFile.
  destruct (startsWith f root) eqn:E; [ | exact E].
  apply startsWith_absolute; [exact Habs | apply relative_not_absolute].
Qed.

(** X11: under an absolute root, no issue of the JSON decoder has a file
    that still starts with the root; its code is never empty or otherwise
    falsy (it is ["unknown"] when the element gives none), its message is
    the empty string or truthy, and its line and column are truthy. *)
Theorem parseJsonOutput_fields :
  forall (cwd root : jsstring) (payload : JsVal)
         (issues : list (Issue JsVal JsVal)) (i : Issue JsVal JsVal),
    Path.isAbsolute root = true ->
    _parseJsonOutput cwd payload root = Ok issues ->
    In i issues ->
    startsWith (file i) root = false /\
    Js.truthy (code i) = true /\
    (message i = JStr [] \/ Js.truthy (message i) = true) /\
    Js.truthy (line i) = true /\
    Js.truthy (column i) = true.
Proof.
  intros cwd root payload issues i Habs H Hi.
  destruct (parseJsonOutput_In _ _ _ _ _ H Hi) as [e He].
  destruct (parseIssue_fields _ _ _ _ He) as (sev & f & _ & Hf & Hc & Hm).
  destruct (parseIssue_positions _ _ _ _ He) as [Hl Hcol].
  rewrite Hf, Hc, Hm, Hl, Hcol.
  split; [apply relativeFile_outside, Habs | ].
  split; [apply or_default_truthy; reflexivity | ].
  split; [apply or_empty | split; apply or_default_truthy; reflexivity].
Qed.

Lemma parseJsonOutput_fields_witness :
  startsWith (js "a.dart") (js "/root") = false /\
  Js.truthy (JStr (js "E1")) = true /\
  (JStr (js "m") = JStr [] \/ Js.truthy (JStr (js "m")) = true) /\
  Js.truthy (JNum 3) = true /\
  Js.truthy (JNum 5) = true.
Proof.
  apply (parseJsonOutput_fields (js "/") (js "/root") singleIssuePayload
           [ {| severity := SevError; code := JStr (js "E1");
                message := JStr (js "m"); file := js "a.dart";
                line := JNum 3; column := JNum 5 |} ]
           {| severity := SevError; code := JStr (js "E1");
              message := JStr (js "m"); file := js "a.dart";
              line := JNum 3; column := JNum 5 |}).
  - reflexivity.
  - vm_compute. reflexivity.
  - left. reflexivity.
Defined.

(** ** The runs of the orchestrator *)

Ltac pick_trace := repeat (first [left; reflexivity | right]).

(** X12: a run hands the tool at most two commands, the JSON command first
    and the text command, if at all, second; it ends in exactly one
    decoder, whose issues it returns.  Its course is one of eight. *)
Theorem runAnalyze_courses :
  forall cwd exec JSON_parse diagnostics workspaceFolders analyzer
         (workspaceRoot : jsstring),
    let j := Exec (jsonCommand analyzer) in
    let t := Exec (textCommand analyzer) in
    In (fst (runAnalyze cwd exec JSON_parse diagnostics workspaceFolders
                        analyzer workspaceRoot))
       [[j; DecodeSnapshot];
        [j; t; DecodeText];
        [j; t; DecodeSnapshot];
        [j; JsonParse; t; DecodeText];
        [j; JsonParse; t; DecodeSnapshot];
        [j; JsonParse; DecodeJson];
        [j; JsonParse; DecodeJson; t; DecodeText];
        [j; JsonParse; DecodeJson; t; DecodeSnapshot]].
Proof.
  intros cwd exec JSON_parse diagnostics workspaceFolders analyzer root.
  cbv zeta. unfold runAnalyze, _parseTextOutput, after, snapshot.
  destruct (exec (jsonCommand analyzer) root) as [stdout stderr | ];
    [ | simpl; pick_trace].
  destruct (negb (eqb stderr []) && eqb stdout []).
  - destruct (exec (textCommand analyzer) root); simpl; pick_trace.
  - destruct (JSON_parse stdout) as [v | ].
    + destruct (_parseJsonOutput cwd v root); [simpl; pick_trace | ].
      destruct (exec (textCommand analyzer) root); simpl; pick_trace.
    + destruct (exec (textCommand analyzer) root); simpl; pick_trace.
Qed.

Lemma commands_differ analyzer :
  Exec (textCommand analyzer) <> Exec (jsonCommand analyzer).
Proof. destruct analyzer; discriminate. Qed.

(** X13: a run answers the diagnostics of the editor exactly when the last
    command it handed to the tool was rejected: the JSON command, or the
    text command after it. *)
Theorem runAnalyze_snapshot_iff_rejected :
  forall cwd exec JSON_parse diagnostics workspaceFolders analyzer
         (workspaceRoot : jsstring),
    let r := runAnalyze cwd exec JSON_parse diagnostics workspaceFolders
                        analyzer workspaceRoot in
    (In DecodeSnapshot (fst r) <->
     exec (jsonCommand analyzer) workspaceRoot = Rejected
     \/ (In (Exec (textCommand analyzer)) (fst r)
         /\ exec (textCommand analyzer) workspaceRoot = Rejected))
    /\ (In DecodeSnapshot (fst r) ->
        snd r = map toRuntime
                    (_getDiagnosticsFromEditor cwd diagnostics
                                               workspaceFolders)).
Proof.
  intros cwd exec JSON_parse diagnostics workspaceFolders analyzer root.
  pose proof (commands_differ analyzer) as Hd.
  cbv zeta. unfold runAnalyze, _parseTextOutput, after, snapshot.
  destruct (exec (jsonCommand analyzer) root) as [stdout stderr | ] eqn:Ej;
    [ | simpl; split; [split; auto | reflexivity]].
  assert (Hn : forall P : Prop,
             Resolved stdout stderr = Rejected \/ P <-> P)
    by (intros P; split; [intros [H | H]; [discriminate | exact H] | auto]).
  destruct (negb (eqb stderr []) && eqb stdout []).
  - destruct (exec (textCommand analyzer) root) eqn:Et; simpl;
      rewrite Hn; split;
      try (intros; reflexivity);
      try (split; [intros [H | [H | [H | []]]]; discriminate
                  | intros [_ H]; discriminate]);
      try (intros [H | [H | [H | []]]]; discriminate);
      split; auto.
  - destruct (JSON_parse stdout) as [v | ].
    + destruct (_parseJsonOutput cwd v root).
      * simpl. rewrite Hn. split.
        -- split; [intros [H | [H | [H | []]]]; discriminate | ].
           intros [[H | [H | [H | []]]] _]; try discriminate.
           symmetry in H. contradiction.
        -- intros [H | [H | [H | []]]]; discriminate.
      * destruct (exec (textCommand analyzer) root) eqn:Et; simpl;
          rewrite Hn; split;
          try (intros; reflexivity);
          try (split; [intros [H | [H | [H | [H | [H | []]]]]]; discriminate
                      | intros [_ H]; discriminate]);
          try (intros [H | [H | [H | [H | [H | []]]]]]; discriminate);
          split; auto 8.
    + destruct (exec (textCommand analyzer) root) eqn:Et; simpl;
        rewrite Hn; split;
        try (intros; reflexivity);
        try (split; [intros [H | [H | [H | [H | []]]]]; discriminate
                    | intros [_ H]; discriminate]);
        try (intros [H | [H | [H | [H | []]]]]; discriminate);
        split; auto 8.
Qed.

(** X14: a payload that [JSON.parse] reads but the decoder throws on, such
    as [null], is treated like a payload that does not parse: the run
    invokes the tool in text mode and returns what that path returns. *)
Theorem runAnalyze_undecodable :
  forall cwd exec JSON_parse diagnostics workspaceFolders analyzer
         (workspaceRoot stdout stderr : jsstring) (payload : JsVal),
    exec (jsonCommand analyzer) workspaceRoot = Resolved stdout stderr ->
    stdout <> [] ->
    JSON_parse stdout = Some payload ->
    decodable payload = false ->
    let r := runAnalyze cwd exec JSON_parse diagnostics workspaceFolders
                        analyzer workspaceRoot in
    let text := _parseTextOutput cwd exec diagnostics workspaceFolders
                                 workspaceRoot analyzer in
    snd r = snd text /\
    fst r = [Exec (jsonCommand analyzer); JsonParse; DecodeJson] ++ fst text.
Proof.
  intros cwd exec JSON_parse diagnostics workspaceFolders analyzer root
         stdout stderr payload Hexec Hne Hparse Hdec.
  cbv zeta. unfold runAnalyze. rewrite Hexec.
  apply eqb_neq in Hne. rewrite Hne, andb_false_r, Hparse.
  destruct (_parseJsonOutput cwd payload root) as [l | ] eqn:E.
  - assert (D : decodable payload = true)
      by (apply (parseJsonOutput_ok_iff cwd root); eauto).
    congruence.
  - split; reflexivity.
Qed.

Lemma runAnalyze_undecodable_witness :
  snd (_runFlutterAnalyze (js "/root") nullExec parseNull [] None (js "/root"))
  = map toRuntime (parseTextLines (js "/root") (js "/root") exampleReport).
Proof.
  apply (runAnalyze_undecodable (js "/root") nullExec parseNull [] None
           Flutter (js "/root") (js "null") [] JNull).
  - reflexivity.
  - discriminate.
  - reflexivity.
  - reflexivity.
Defined.

(** ** The diagnostics decoder *)

(** X15: the diagnostics decoder returns one issue for every diagnostic of
    every entry it keeps, the entries whose scheme is [file] and whose path
    ends in [.dart], and none for the other entries; entries are decoded
    one after the other. *)
Theorem getDiagnosticsFromEditor_count :
  forall cwd (diagnostics more : list (Vscode.Uri * list Vscode.Diagnostic))
         workspaceFolders,
    List.length (_getDiagnosticsFromEditor cwd diagnostics workspaceFolders)
    = list_sum (map (fun entry : Vscode.Uri * list Vscode.Diagnostic =>
                       if retained (fst entry)
                       then List.length (snd entry) else 0%nat)
                    diagnostics)
    /\ _getDiagnosticsFromEditor cwd (diagnostics ++ more) workspaceFolders
       = _getDiagnosticsFromEditor cwd diagnostics workspaceFolders
           ++ _getDiagnosticsFromEditor cwd more workspaceFolders.
Proof.
  intros cwd diagnostics more workspaceFolders.
  split; [ | apply flat_map_app].
  unfold _getDiagnosticsFromEditor. rewrite length_flat_map. f_equal.
  apply map_ext. intros [uri diags]. unfold retained. simpl.
  destruct (eqb (Vscode.scheme uri) (js "file")); simpl; [ | reflexivity].
  destruct (endsWith (Vscode.fsPath uri) (js ".dart")); simpl;
    [apply length_map | reflexivity].
Qed.

Lemma getDiagnostics_origin :
  forall cwd diagnostics workspaceFolders (i : AnalysisIssue),
    In i (_getDiagnosticsFromEditor cwd diagnostics workspaceFolders) ->
    exists uri diags d,
      In (uri, diags) diagnostics /\ In d diags /\ retained uri = true /\
      message i = Vscode.message d /\
      line i = Z.of_N (Vscode.line (Vscode.start d)) + 1 /\
      column i = Z.of_N (Vscode.character (Vscode.start d)) + 1 /\
      code i = diagnosticCode (Vscode.code d) /\
      severity i = _mapDiagnosticSeverity (Vscode.severity d) /\
      file i = match workspaceFolders with
               | Some ((_ :: _) as folder :: _) =>
                   Path.relative cwd folder (Vscode.fsPath uri)
               | _ => Vscode.fsPath uri
               end.
Proof.
  intros cwd diagnostics workspaceFolders i H.
  unfold _getDiagnosticsFromEditor in H.
  apply in_flat_map in H as ([uri diags] & Hin & H).
  unfold retained.
  destruct (eqb (Vscode.scheme uri) (js "file")) eqn:Es; simpl in H;
    [ | destruct H].
  destruct (endsWith (Vscode.fsPath uri) (js ".dart")) eqn:Ee; simpl in H;
    [ | destruct H].
  apply in_map_iff in H as (d & <- & Hd).
  exists uri, diags, d. simpl. rewrite Es, Ee.
  repeat split; auto.
  destruct workspaceFolders as [[|[|c folder] folders] | ]; reflexivity.
Qed.

(** X16: every issue of the diagnostics decoder comes from a diagnostic of
    a kept entry: it has that diagnostic's message, its position counted
    from 1, its code as a string (["unknown"] when it has none), and as
    file the entry's path, made relative to the first workspace folder
    when there is one with a non-empty path. *)
Theorem getDiagnosticsFromEditor_provenance :
  forall cwd diagnostics workspaceFolders (i : AnalysisIssue),
    In i (_getDiagnosticsFromEditor cwd diagnostics workspaceFolders) ->
    exists uri diags d,
      In (uri, diags) diagnostics /\ In d diags /\ retained uri = true /\
      message i = Vscode.message d /\
      line i = Z.of_N (Vscode.line (Vscode.start d)) + 1 /\
      column i = Z.of_N (Vscode.character (Vscode.start d)) + 1 /\
      code i = diagnosticCode (Vscode.code d) /\
      severity i = _mapDiagnosticSeverity (Vscode.severity d) /\
      file i = match workspaceFolders with
               | Some ((_ :: _) as folder :: _) =>
                   Path.relative cwd folder (Vscode.fsPath uri)
               | _ => Vscode.fsPath uri
               end.
Proof. exact getDiagnostics_origin. Qed.

Lemma getDiagnosticsFromEditor_provenance_witness :
  exists uri diags d,
    In (uri, diags)
       [(Vscode.mkUri (js "file") (js "/w/a.dart"),
         [Vscode.mkDiagnostic 1 Vscode.CodeNone (js "m")
                              (Vscode.mkPosition 4 0)])]
    /\ In d diags /\ retained uri = true
    /\ js "m" = Vscode.message d
    /\ 5 = Z.of_N (Vscode.line (Vscode.start d)) + 1
    /\ 1 = Z.of_N (Vscode.character (Vscode.start d)) + 1
    /\ js "unknown" = diagnosticCode (Vscode.code d)
    /\ SevWarning = _mapDiagnosticSeverity (Vscode.severity d)
    /\ js "a.dart" = Path.relative (js "/") (js "/w") (Vscode.fsPath uri).
Proof.
  apply (getDiagnosticsFromEditor_provenance (js "/")
           [(Vscode.mkUri (js "file") (js "/w/a.dart"),
             [Vscode.mkDiagnostic 1 Vscode.CodeNone (js "m")
                                  (Vscode.mkPosition 4 0)])]
           (Some [js "/w"])
           {| severity := SevWarning; code := js "unknown";
              message := js "m"; file := js "a.dart"; line := 5;
              column := 1 |}).
  vm_compute. left. reflexivity.
Defined.

(** ** The panel: release of the guard, results, invocations *)

(** X17: the guard is always released.  When the run in flight returns or
    throws, the flag [_isAnalyzing] goes down and no run is left in
    flight, so the next call of [refresh] in a workspace starts a run. *)
Theorem refresh_guard_released :
  forall (events : list Panel.Event) analyzer folder folders,
    Panel.inFlight (Panel.run events) <> [] ->
    forall how,
      how <> Panel.StartsTextExec ->
      let s := Panel.settle (Panel.run events) 0 how in
      Panel._isAnalyzing s = false /\
      Panel.inFlight s = [] /\
      Panel.inFlight (Panel.refresh s analyzer (Some (folder :: folders)))
      = [Panel.AwaitJsonExec].
Proof.
  intros events analyzer folder folders Hf how Hhow. cbv zeta.
  destruct (run_guarded events) as [[Hn _] | (w & Hw & Ha)];
    [congruence | ].
  unfold Panel.settle. rewrite Hw. simpl.
  destruct how as [ | r | m]; [congruence | | ];
    destruct w; simpl; repeat split; reflexivity.
Qed.

Lemma refresh_guard_released_witness :
  Panel._isAnalyzing
    (Panel.settle (Panel.run [Panel.Refresh Flutter (Some [js "/root"])]) 0
                  (Panel.Throws (js "boom"))) = false.
Proof.
  apply (refresh_guard_released
           [Panel.Refresh Flutter (Some [js "/root"])] Flutter (js "/root")
           [] ltac:(discriminate) (Panel.Throws (js "boom"))
           ltac:(discriminate)).
Defined.

(** X18: the results of a panel are replaced wholesale, and only by a run
    that returns: a call of [refresh], the start of the text invocation
    and a run that throws leave them as they are, and a run that returns
    leaves exactly its own list. *)
Theorem analysisResults_replaced_by_return :
  forall (events : list Panel.Event) (e : Panel.Event),
    let s := Panel.run events in
    match e with
    | Panel.Settle 0 (Panel.Returns analysisResults) =>
        Panel.inFlight s <> [] ->
        Panel._analysisResults (Panel.step s e) = analysisResults
    | Panel.Settle (S _) (Panel.Returns _) =>
        Panel.step s e = s
    | _ =>
        Panel._analysisResults (Panel.step s e) = Panel._analysisResults s
    end.
Proof.
  intros events e. cbv zeta.
  destruct (run_guarded events) as [[Hn Ha] | (w & Hw & Ha)];
    destruct e as [analyzer folders | [|n] [ | r | m]]; simpl;
    unfold Panel.refresh, Panel.settle; rewrite ?Ha, ?Hn, ?Hw; simpl;
    try reflexivity; try congruence;
    try (destruct w; reflexivity);
    try (destruct folders as [[|f fs] | ]; reflexivity);
    try (destruct n; reflexivity).
Qed.

Lemma step_invocations s e n :
  guarded s ->
  (Panel.invocations s + awaitingJson (Panel.inFlight s) <= 2 * n)%nat ->
  (Panel.invocations (Panel.step s e)
   + awaitingJson (Panel.inFlight (Panel.step s e))
   <= 2 * (n + refreshCalls [e]))%nat.
Proof.
  intros Hg Hb. destruct s as [flag results ttl runs inv].
  unfold guarded in Hg. simpl in Hg, Hb.
  destruct Hg as [[-> ->] | (w & -> & ->)];
    destruct e as [analyzer folders | run how];
    unfold refreshCalls, awaitingJson, Panel.step, Panel.refresh,
      Panel.settle in *; simpl in *.
  - destruct folders as [[|f fs] | ]; simpl; lia.
  - destruct run; simpl; lia.
  - lia.
  - destruct run as [|run]; simpl; [ | destruct run; simpl; lia].
    destruct how, w; simpl in *; lia.
Qed.

(** X19: a panel never invokes the tool more than twice for each call of
    [refresh]: after any events, the invocations started are at most twice
    the calls made. *)
Theorem invocations_bounded :
  forall events : list Panel.Event,
    (Panel.invocations (Panel.run events) <= 2 * refreshCalls events)%nat.
Proof.
  intros events. unfold Panel.run.
  assert (G : forall evs s n,
             guarded s ->
             (Panel.invocations s + awaitingJson (Panel.inFlight s)
              <= 2 * n)%nat ->
             (Panel.invocations (fold_left Panel.step evs s)
              + awaitingJson (Panel.inFlight (fold_left Panel.step evs s))
              <= 2 * (n + refreshCalls evs))%nat).
  { induction evs as [|e evs IH]; intros s n Hg Hb.
    - simpl. unfold refreshCalls. simpl. lia.
    - cbn [fold_left].
      replace (n + refreshCalls (e :: evs))%nat
        with ((n + refreshCalls [e]) + refreshCalls evs)%nat
        by (unfold refreshCalls; simpl; destruct e; simpl; lia).
      apply IH.
      + destruct e; simpl; [apply refresh_guarded | apply settle_guarded];
          exact Hg.
      + apply step_invocations; assumption. }
  specialize (G events Panel.initial 0%nat).
  simpl in G. assert (guarded Panel.initial) by (left; split; reflexivity).
  specialize (G H). unfold awaitingJson in G at 1. simpl in G. lia.
Qed.

(** ** Issues on one line *)

Lemma insert_same_line (n : Z) (x : AnalysisIssue) l :
  filter (fun i => line i =? n)
         (JsArray.insert (fun a b => line a - line b) x l)
  = filter (fun i => line i =? n) (x :: l).
Proof.
  induction l as [|y l IH]; [reflexivity | ].
  cbn [JsArray.insert].
  destruct (line x - line y <=? 0) eqn:E; [reflexivity | ].
  apply Z.leb_gt in E. cbn [filter]. rewrite IH. cbn [filter].
  destruct (line y =? n) eqn:Ey; destruct (line x =? n) eqn:Ex;
    try reflexivity.
  apply Z.eqb_eq in Ey, Ex. lia.
Qed.

Lemma sort_same_line (n : Z) (l : list AnalysisIssue) :
  filter (fun i => line i =? n) (JsArray.sort (fun a b => line a - line b) l)
  = filter (fun i => line i =? n) l.
Proof.
  unfold JsArray.sort. induction l as [|x l IH]; [reflexivity | ].
  cbn [fold_right]. rewrite insert_same_line. cbn [filter].
  rewrite IH. reflexivity.
Qed.

Lemma filter_filter {A} (p q : A -> bool) l :
  filter p (filter q l) = filter (fun x => q x && p x) l.
Proof.
  induction l as [|x l IH]; simpl; [reflexivity | ].
  destruct (q x); simpl; [destruct (p x); rewrite IH | rewrite IH];
    reflexivity.
Qed.

(** X20: within a group, the issues of one line stay in the order in which
    the decoder returned them: for every line, the issues of a group on
    that line are the issues of the list in that file and on that line, in
    the order of the list. *)
Theorem fileGroups_same_line_order :
  forall (localeCompare : jsstring -> jsstring -> Z)
         (issues : list AnalysisIssue) (n : Z),
    Forall (fun g =>
              filter (fun i => line i =? n) (snd g)
              = filter (fun i => inFile (fst g) i && (line i =? n)) issues)
           (fileGroups localeCompare issues).
Proof.
  intros localeCompare issues n. apply Forall_forall. intros g Hg.
  destruct (fileGroups_In localeCompare issues g Hg) as [E _].
  cbv beta.
  refine (eq_trans (f_equal (filter (fun i : AnalysisIssue => line i =? n)) E)
                   _).
  refine (eq_trans (sort_same_line n _) _).
  exact (filter_filter _ _ _).
Qed.

(** ** From the message of an issue back to its file *)

(** Examples of Node's documentation and corner cases. *)
Example normalize_join_documented :
  PathJoin.normalize (js "/foo/bar//baz/asdf/quux/..") = js "/foo/bar/baz/asdf"
  /\ PathJoin.normalize (js "a/../../b/") = js "../b/"
  /\ PathJoin.normalize (js "a/..") = js "."
  /\ PathJoin.normalize (js "./") = js "./"
  /\ PathJoin.normalize (js "/..") = js "/"
  /\ PathJoin.normalize [] = js "."
  /\ PathJoin.join (js "/foo") (js "bar/baz/..") = js "/foo/bar"
  /\ PathJoin.join (js "/root") (js "../lib/a.dart") = js "/lib/a.dart"
  /\ PathJoin.join [] [] = js ".".
Proof. repeat split; vm_compute; reflexivity. Qed.

Lemma segments_cons_sep p : Path.segments (Path.sep :: p) = Path.segments p.
Proof. apply (segments_app_sep [] p). Qed.

Lemma segments_snoc_sep p :
  Path.segments (p ++ [Path.sep]) = Path.segments p.
Proof. rewrite segments_app_sep. apply app_nil_r. Qed.

Lemma normalizeSegments_plain segs :
  Forall plain segs -> Path.normalizeSegments segs = segs.
Proof.
  intros H. unfold Path.normalizeSegments.
  rewrite normalizeOnto_plain by exact H.
  rewrite app_nil_r. apply rev_involutive.
Qed.

Lemma join_nil segs :
  Forall segment segs -> Path.join segs = [] -> segs = [].
Proof.
  destruct segs as [|s rest]; [reflexivity | ].
  intros H E. inversion H as [|? ? [Hne _] _]; subst.
  simpl in E. destruct s; [congruence | discriminate].
Qed.

(** [path.normalize] keeps what an absolute path resolves to. *)
Lemma resolve_normalize cwd p :
  Path.isAbsolute p = true ->
  Path.isAbsolute (PathJoin.normalize p) = true /\
  Path.resolve cwd (PathJoin.normalize p) = Path.resolve cwd p.
Proof.
  intros Habs.
  assert (Hs : Forall segment (Path.normalizeSegments (Path.segments p))).
  { pose proof (resolve_segment cwd p) as H. unfold Path.resolve in H.
    rewrite Habs in H. exact H. }
  assert (Hp : Forall plain (Path.normalizeSegments (Path.segments p))).
  { pose proof (resolve_plain cwd p) as H. unfold Path.resolve in H.
    rewrite Habs in H. exact H. }
  assert (G : Path.isAbsolute (PathJoin.normalize p) = true /\
              Path.segments (PathJoin.normalize p)
              = Path.normalizeSegments (Path.segments p)).
  { unfold PathJoin.normalize. destruct p as [|c p]; [discriminate | ].
    rewrite Habs.
    destruct (Path.join (Path.normalizeSegments (Path.segments (c :: p))))
      as [|b body] eqn:E.
    - split; [reflexivity | ].
      rewrite (join_nil _ Hs E). reflexivity.
    - split; [destruct (PathJoin.endsWithSep (c :: p)); reflexivity | ].
      destruct (PathJoin.endsWithSep (c :: p));
        rewrite segments_cons_sep, ?segments_snoc_sep, <- E;
        apply segments_join, Hs. }
  destruct G as [G1 G2]. split; [exact G1 | ].
  unfold Path.resolve. rewrite G1, Habs, G2.
  apply normalizeSegments_plain, Hp.
Qed.

(** The path the handler shows for a file that [path.relative] answered
    against an absolute root resolves to the file. *)
Lemma join_relative cwd root to :
  Path.isAbsolute root = true ->
  Path.relative cwd root to <> [] ->
  Path.resolve cwd (PathJoin.join root (Path.relative cwd root to))
  = Path.resolve cwd to.
Proof.
  intros Habs Hne.
  assert (Hr : root <> []) by (intros ->; discriminate).
  unfold PathJoin.join.
  destruct root as [|r root]; [congruence | ].
  destruct (Path.relative cwd (r :: root) to) as [|c rel] eqn:E;
    [congruence | ].
  assert (A : Path.isAbsolute ((r :: root) ++ Path.sep :: c :: rel) = true)
    by exact Habs.
  destruct (resolve_normalize cwd _ A) as [_ ->].
  rewrite <- E. apply resolve_relative, Hr.
Qed.

Lemma openFile_path root folders m :
  msgFile m <> [] -> msgLine m <> 0 ->
  shownPath (openFile (Some (root :: folders)) m)
  = Some (if Path.isAbsolute (msgFile m) then msgFile m
          else PathJoin.join root (msgFile m)).
Proof.
  intros Hf Hl. unfold openFile.
  apply eqb_neq in Hf. apply Z.eqb_neq in Hl. rewrite Hf, Hl. simpl.
  destruct ((msgLine m - 1 <? 0)
            || ((if msgColumn m - 1 =? 0 then 0 else msgColumn m - 1) <? 0));
    reflexivity.
Qed.

(** X21: the handler of [openFile], given the file, line and column of an
    issue of the diagnostics decoder, leads back to the diagnostic.  Under
    an absolute workspace root, for the message that carries the file, the
    line and the column of an issue whose file is not empty, the handler
    shows a document whose path resolves to the path of the diagnostic's
    entry, at the diagnostic's own zero-based line and character.  The
    statement starts at the message: how the page comes to post it is not
    part of it. *)
Theorem openFile_of_diagnostic :
  forall cwd root folders diagnostics (i : AnalysisIssue),
    Path.isAbsolute root = true ->
    In i (_getDiagnosticsFromEditor cwd diagnostics (Some (root :: folders)))
    ->
    file i <> [] ->
    exists uri diags d fullPath,
      In (uri, diags) diagnostics /\ In d diags /\
      openFile (Some (root :: folders))
               {| msgFile := file i; msgLine := line i;
                  msgColumn := column i |}
      = Shown fullPath (Z.of_N (Vscode.line (Vscode.start d)))
              (Z.of_N (Vscode.character (Vscode.start d))) /\
      Path.resolve cwd fullPath = Path.resolve cwd (Vscode.fsPath uri).
Proof.
  intros cwd root folders diagnostics i Habs Hi Hne.
  destruct (getDiagnostics_origin _ _ _ _ Hi)
    as (uri & diags & d & Hin & Hd & _ & _ & Hl & Hc & _ & _ & Hf).
  destruct root as [|r root]; [discriminate | ].
  exists uri, diags, d,
    (PathJoin.join (r :: root) (Path.relative cwd (r :: root)
                                              (Vscode.fsPath uri))).
  split; [exact Hin | ]. split; [exact Hd | ].
  split.
  - unfold openFile. cbn [msgFile msgLine msgColumn].
    apply eqb_neq in Hne. rewrite Hne, Hl, Hc, Hf.
    rewrite relative_not_absolute.
    replace (Z.of_N (Vscode.line (Vscode.start d)) + 1 =? 0) with false
      by (symmetry; apply Z.eqb_neq; lia).
    cbn [negb andb].
    replace (Z.of_N (Vscode.line (Vscode.start d)) + 1 - 1)
      with (Z.of_N (Vscode.line (Vscode.start d))) by lia.
    replace (Z.of_N (Vscode.character (Vscode.start d)) + 1 - 1)
      with (Z.of_N (Vscode.character (Vscode.start d))) by lia.
    replace (Z.of_N (Vscode.line (Vscode.start d)) <? 0) with false
      by (symmetry; apply Z.ltb_ge; lia).
    destruct (Z.of_N (Vscode.character (Vscode.start d)) =? 0) eqn:E.
    + apply Z.eqb_eq in E. rewrite E. reflexivity.
    + replace (Z.of_N (Vscode.character (Vscode.start d)) <? 0) with false
        by (symmetry; apply Z.ltb_ge; lia).
      reflexivity.
  - apply join_relative; [exact Habs | ]. rewrite <- Hf. exact Hne.
Qed.

Lemma openFile_of_diagnostic_witness :
  exists uri diags d fullPath,
    In (uri, diags)
       [(Vscode.mkUri (js "file") (js "/w/lib/a.dart"),
         [Vscode.mkDiagnostic 0 (Vscode.CodeString (js "e")) (js "m")
                              (Vscode.mkPosition 4 2)])]
    /\ In d diags
    /\ openFile (Some [js "/w"])
                {| msgFile := js "lib/a.dart"; msgLine := 5; msgColumn := 3 |}
       = Shown fullPath (Z.of_N (Vscode.line (Vscode.start d)))
               (Z.of_N (Vscode.character (Vscode.start d)))
    /\ Path.resolve (js "/") fullPath
       = Path.resolve (js "/") (Vscode.fsPath uri).
Proof.
  apply (openFile_of_diagnostic (js "/") (js "/w") []
           [(Vscode.mkUri (js "file") (js "/w/lib/a.dart"),
             [Vscode.mkDiagnostic 0 (Vscode.CodeString (js "e")) (js "m")
                                  (Vscode.mkPosition 4 2)])]
           {| severity := SevError; code := js "e"; message := js "m";
              file := js "lib/a.dart"; line := 5; column := 3 |}).
  - reflexivity.
  - vm_compute. left. reflexivity.
  - discriminate.
Defined.

(** X22: the file of an issue of the JSON decoder leads back to the file
    the payload names.  Under an absolute workspace root, for an absolute
    file of the payload whose normalised form is not empty, the document
    the handler of [openFile] shows has a path that resolves to that
    file. *)
Theorem openFile_of_relativeFile :
  forall cwd root folders (file : jsstring) (line column : Z),
    Path.isAbsolute root = true ->
    Path.isAbsolute file = true ->
    relativeFile cwd root file <> [] ->
    line <> 0 ->
    exists fullPath,
      shownPath (openFile (Some (root :: folders))
                          {| msgFile := relativeFile cwd root file;
                             msgLine := line; msgColumn := column |})
      = Some fullPath /\
      Path.resolve cwd fullPath = Path.resolve cwd file.
Proof.
  intros cwd root folders file line column Habs Hfile Hne Hl.
  rewrite openFile_path by assumption. cbn [msgFile].
  eexists. split; [reflexivity | ].
  unfold relativeFile in *. destruct (startsWith file root) eqn:E.
  - rewrite relative_not_absolute. apply join_relative; assumption.
  - rewrite Hfile. reflexivity.
Qed.

Lemma openFile_of_relativeFile_witness :
  exists fullPath,
    shownPath (openFile (Some [js "/root"])
                        {| msgFile := relativeFile (js "/") (js "/root")
                                                   (js "/root/lib/a.dart");
                           msgLine := 3; msgColumn := 5 |})
    = Some fullPath /\
    Path.resolve (js "/") fullPath
    = Path.resolve (js "/") (js "/root/lib/a.dart").
Proof.
  apply (openFile_of_relativeFile (js "/") (js "/root") []
           (js "/root/lib/a.dart") 3 5).
  - reflexivity.
  - reflexivity.
  - vm_compute. discriminate.
  - discriminate.
Defined.

(** X23: the file of an issue of the text decoder leads to the path of the
    report read against the working directory of the process.  Under an
    absolute workspace root, for a message that carries the file of such an
    issue and a line that is an integer other than 0, the document the
    handler of [openFile] shows has a path that resolves to what the path
    captured from the report line resolves to in the process, wherever the
    root is. *)
Theorem openFile_of_text_issue :
  forall cwd root folders (g : Regex.Groups) (line column : Z),
    Path.isAbsolute root = true ->
    file (startIssue cwd root g) <> [] ->
    line <> 0 ->
    exists fullPath,
      shownPath (openFile (Some (root :: folders))
                          {| msgFile := file (startIssue cwd root g);
                             msgLine := line; msgColumn := column |})
      = Some fullPath /\
      Path.resolve cwd fullPath = Path.resolve cwd (Regex.g3 g).
Proof.
  intros cwd root folders g line column Habs Hne Hl.
  rewrite openFile_path by assumption. cbn [msgFile].
  eexists. split; [reflexivity | ].
  simpl in *. rewrite relative_not_absolute.
  apply join_relative; assumption.
Qed.

Lemma openFile_of_text_issue_witness :
  exists fullPath,
    shownPath
      (openFile (Some [js "/root"])
                {| msgFile := js "../lib/a.dart"; msgLine := 10;
                   msgColumn := 1 |})
    = Some fullPath /\
    Path.resolve (js "/") fullPath = Path.resolve (js "/") (js "lib/a.dart").
Proof.
  apply (openFile_of_text_issue (js "/") (js "/root") []
           (Regex.mkGroups (js "error") (js "Unused import")
                           (js "lib/a.dart") (js "10") (js "1"))
           10 1).
  - reflexivity.
  - vm_compute. discriminate.
  - discriminate.
Defined.
